(** * MangaReader: a shallow embedding of [manga_reader.py]

  The development follows the Python class [MangaReader].

  The model:
  - [PyStr]      the [str]/[bytes] operations the source relies on
                 ([strip], [split], slicing, [str.format] on integers);
  - [Url]        [urllib.parse.urlparse], as far as [netloc] and [path] go;
  - [Validation] [validate_url] and the rule it is meant to implement;
  - [Dict]       the insertion-ordered [dict] holding the chapter index;
  - [Fs]         the part of the process the source touches through [os]:
                 directories, files and the current working directory;
  - [Crawler]    the object, its constructor and its methods, written in a
                 state-and-exception monad over the object and the process;
  - [Scenario]   a small site and a small process to run the methods in;
  - [Props]      the vocabulary of the properties.

  The properties follow, module by module: strings and validation, the
  constructor, the fetcher (pacing, retries), the progress store, chapter
  and page download, discovery, the whole crawl, and what propagates.

  Integers are Python's unbounded [int], hence [Z].  Time is counted in
  ticks of a clock that never runs backwards, also [Z].  Paths are POSIX
  paths.  Calls to the logger do not influence control flow and are left
  out. *)

From Stdlib Require Import ZArith String Ascii List Bool Lia DecimalString.
From Stdlib Require DecimalPos DecimalZ.
Import ListNotations.

Local Open Scope string_scope.
Local Open Scope Z_scope.

(* ===================================================================== *)
(** ** Python string operations *)
(* ===================================================================== *)

Module PyStr.

(** [s[1:]] *)
Definition drop1 (s : string) : string :=
  match s with
  | EmptyString => EmptyString
  | String _ s' => s'
  end.

(** [s.lstrip(c)] for a one-character argument. *)
Fixpoint lstrip (c : ascii) (s : string) : string :=
  match s with
  | EmptyString => EmptyString
  | String a s' => if Ascii.eqb a c then lstrip c s' else s
  end.

(** [s.rstrip(c)] for a one-character argument. *)
Fixpoint rstrip (c : ascii) (s : string) : string :=
  match s with
  | EmptyString => EmptyString
  | String a s' =>
      match rstrip c s' with
      | EmptyString => if Ascii.eqb a c then EmptyString else String a EmptyString
      | r => String a r
      end
  end.

(** [s.strip(c)] *)
Definition strip (c : ascii) (s : string) : string := rstrip c (lstrip c s).

(** [s.split(c)]: every occurrence of [c] separates two pieces, so the
    result is never empty and [""] splits into [[""]]. *)
Fixpoint split (c : ascii) (s : string) : list string :=
  match s with
  | EmptyString => [EmptyString]
  | String a s' =>
      if Ascii.eqb a c then EmptyString :: split c s'
      else match split c s' with
           | h :: t => String a h :: t
           | [] => [String a EmptyString]
           end
  end.

Definition nonempty (s : string) : bool :=
  match s with EmptyString => false | _ => true end.

(** [str(n)] / ["{}".format(n)] for an [int]. *)
Definition str (n : Z) : string := NilZero.string_of_int (Z.to_int n).

Fixpoint zeros (k : nat) : string :=
  match k with O => "" | S k' => String "0" (zeros k') end.

(** ["{:0<w>d}".format(n)]: sign first, then zeros up to width [w]
    (the sign counts in the width), then the digits. *)
Definition format_0wd (w : nat) (n : Z) : string :=
  let digits := str (Z.abs n) in
  let sign := if n <? 0 then "-" else "" in
  sign ++ zeros (w - String.length sign - String.length digits) ++ digits.

(** First index of [c] in [s], as [str.find] gives it ([None] for -1). *)
Fixpoint find (c : ascii) (s : string) : option nat :=
  match s with
  | EmptyString => None
  | String a s' =>
      if Ascii.eqb a c then Some O
      else match find c s' with Some i => Some (S i) | None => None end
  end.

(** [s[:i]] and [s[i:]] *)
Fixpoint take (i : nat) (s : string) : string :=
  match i, s with
  | S i', String a s' => String a (take i' s')
  | _, _ => EmptyString
  end.

Fixpoint drop (i : nat) (s : string) : string :=
  match i, s with
  | S i', String _ s' => drop i' s'
  | _, _ => s
  end.

(** [s.lower()] on ASCII letters. *)
Definition lower_ascii (a : ascii) : ascii :=
  let n := nat_of_ascii a in
  if (Nat.leb 65 n && Nat.leb n 90)%bool then ascii_of_nat (n + 32) else a.

Fixpoint lower (s : string) : string :=
  match s with
  | EmptyString => EmptyString
  | String a s' => String (lower_ascii a) (lower s')
  end.

Fixpoint forallb (p : ascii -> bool) (s : string) : bool :=
  match s with
  | EmptyString => true
  | String a s' => p a && forallb p s'
  end.

Definition is_alpha (a : ascii) : bool :=
  let n := nat_of_ascii a in
  ((Nat.leb 65 n && Nat.leb n 90) || (Nat.leb 97 n && Nat.leb n 122))%bool.

Definition is_digit (a : ascii) : bool :=
  let n := nat_of_ascii a in (Nat.leb 48 n && Nat.leb n 57)%bool.

End PyStr.

(* ===================================================================== *)
(** ** urllib.parse *)
(* ===================================================================== *)

Module Url.
Import PyStr.

Record ParseResult := mkParse {
  scheme : string;
  netloc : string;
  path : string
}.

(** [scheme_chars]: letters, digits and ["+-."]. *)
Definition scheme_char (a : ascii) : bool :=
  (is_alpha a || is_digit a || Ascii.eqb a "+" || Ascii.eqb a "-" || Ascii.eqb a ".")%bool.

(** Step 1 of [urlsplit]: a leading [<scheme>:] is cut off when it starts
    with a letter and consists of scheme characters. *)
Definition split_scheme (url : string) : string * string :=
  match find ":" url with
  | Some (S i) =>
      let cand := take (S i) url in
      match url with
      | String a _ =>
          if (is_alpha a && forallb scheme_char cand)%bool
          then (lower cand, drop (S (S i)) url)
          else ("", url)
      | EmptyString => ("", url)
      end
  | _ => ("", url)
  end.

(** The prefix of [s] before the first of ["/?#"] and the rest. *)
Fixpoint span_netloc (s : string) : string * string :=
  match s with
  | EmptyString => ("", "")
  | String a s' =>
      if (Ascii.eqb a "/" || Ascii.eqb a "?" || Ascii.eqb a "#")%bool then ("", s)
      else let '(n, r) := span_netloc s' in (String a n, r)
  end.

(** Step 2 of [urlsplit]: after ["//"] comes the network location. *)
Definition split_netloc (url : string) : string * string :=
  match url with
  | String "/" (String "/" rest) => span_netloc rest
  | _ => ("", url)
  end.

(** [url.split(c, 1)[0]]: what comes before the first [c], all of [url]
    when there is none. *)
Definition before (c : ascii) (url : string) : string :=
  match find c url with
  | Some i => take i url
  | None => url
  end.

Definition uses_params (sch : string) : bool :=
  existsb (String.eqb sch)
    [""; "ftp"; "hdl"; "prospero"; "http"; "imap"; "https"; "shttp"; "rtsp";
     "rtspu"; "sip"; "sips"; "mms"; "sftp"; "tftp"].

(** Index of the last ["/"] of [s], if any. *)
Fixpoint rfind_slash (s : string) : option nat :=
  match s with
  | EmptyString => None
  | String a s' =>
      match rfind_slash s' with
      | Some i => Some (S i)
      | None => if Ascii.eqb a "/" then Some O else None
      end
  end.

(** [_splitparams(url)[0]]: the path without the parameters of its last
    segment. *)
Definition strip_params (url : string) : string :=
  match rfind_slash url with
  | Some i =>
      match find ";" (drop i url) with
      | Some j => take (i + j) url
      | None => url
      end
  | None => before ";" url
  end.

(** [urllib.parse.urlparse(url)], restricted to the three components the
    source reads.  Bracket checks on IPv6 literals and the removal of
    control characters are not part of the model. *)
Definition urlparse (url : string) : ParseResult :=
  let '(sch, rest) := split_scheme url in
  let '(loc, rest) := split_netloc rest in
  let rest := before "#" rest in
  let rest := before "?" rest in
  let rest := if uses_params sch then strip_params rest else rest in
  mkParse sch loc rest.

End Url.

(* ===================================================================== *)
(** ** URL validation *)
(* ===================================================================== *)

Module Validation.
Import PyStr Url.

(** [self._base_address] *)
Definition _base_address : string := "http://www.mangareader.net/".

(** [MangaReader.validate_url] *)
Definition validate_url (url : string) : bool :=
  let parsed_url := urlparse url in
  if negb (String.eqb (netloc parsed_url) (netloc (urlparse _base_address))) then false
  else if negb (nonempty (path parsed_url)) then false
  else if (1 <? List.length (split "/" (strip "/" (drop1 (path parsed_url)))))%nat then false
  else true.

(** The segments of a path: its non-empty pieces between slashes. *)
Definition segments (p : string) : list string :=
  filter nonempty (split "/" p).

(** The validation rule as the specification words it: same network
    location as the source site, a non-empty path, exactly one segment. *)
Definition spec_series_url (url : string) : Prop :=
  netloc (urlparse url) = netloc (urlparse _base_address)
  /\ path (urlparse url) <> ""
  /\ List.length (segments (path (urlparse url))) = 1%nat.

End Validation.

(* ===================================================================== *)
(** ** The chapter index: an insertion-ordered dict *)
(* ===================================================================== *)

Module Dict.

(** A chapter record is the tuple [(chapter_url, chapter_pages)]. *)
Definition record : Type := string * Z.

(** Python's [dict] keeps its keys in insertion order; the index is kept as
    the list of its items in that order. *)
Definition dict : Type := list (Z * record).

(** [d.get(k)] *)
Fixpoint get (d : dict) (k : Z) : option record :=
  match d with
  | [] => None
  | (k', v) :: d' => if k' =? k then Some v else get d' k
  end.

(** [d[k] = v]: an existing key keeps its place and takes the new value, a
    new key goes to the end. *)
Fixpoint set (d : dict) (k : Z) (v : record) : dict :=
  match d with
  | [] => [(k, v)]
  | (k', v') :: d' => if k' =? k then (k', v) :: d' else (k', v') :: set d' k v
  end.

(** [old.update(new)] *)
Definition update (old new : dict) : dict :=
  fold_left (fun acc kv => set acc (fst kv) (snd kv)) new old.

(** [d.keys()] *)
Definition keys (d : dict) : list Z := map fst d.

End Dict.

(* ===================================================================== *)
(** ** Exceptions and the state monad *)
(* ===================================================================== *)

Inductive exn : Type :=
| ValueError
| TypeError
| IndexError
| FileNotFoundError
| FileExistsError
| NotADirectoryError
| IsADirectoryError
| UnpicklingError
| ContentTooShortError
| HTTPError
| URLError
| TimeoutException
| OtherException.

Inductive result (A : Type) : Type :=
| Ok (a : A)
| Raise (e : exn).

Arguments Ok {A} a.
Arguments Raise {A} e.

(** A computation over a mutable state [S]: it returns or raises, and the
    state it leaves behind is kept either way (Python does not roll back). *)
Definition M (S A : Type) : Type := S -> result A * S.

Definition ret {S A} (a : A) : M S A := fun s => (Ok a, s).

Definition raise {S A} (e : exn) : M S A := fun s => (Raise e, s).

Definition bind {S A B} (m : M S A) (k : A -> M S B) : M S B :=
  fun s =>
    match m s with
    | (Ok a, s') => k a s'
    | (Raise e, s') => (Raise e, s')
    end.

(** [try: m  except Exception: h] *)
Definition catch {S A} (m : M S A) (h : exn -> M S A) : M S A :=
  fun s =>
    match m s with
    | (Ok a, s') => (Ok a, s')
    | (Raise e, s') => h e s'
    end.

Definition gets {S A} (f : S -> A) : M S A := fun s => (Ok (f s), s).

Definition modify {S} (f : S -> S) : M S unit := fun s => (Ok tt, f s).

Declare Scope py_scope.
Delimit Scope py_scope with py.

Notation "x <- m ;; k" := (bind m (fun x => k))
  (at level 61, m at next level, right associativity) : py_scope.
Notation "' p <- m ;; k" := (bind m (fun x => match x with p => k end))
  (at level 61, p pattern, m at next level, right associativity) : py_scope.
Notation "m ;; k" := (bind m (fun _ => k))
  (at level 61, right associativity) : py_scope.

Local Open Scope py_scope.

(** [for x in xs: body(x)] *)
Fixpoint for_each {S A} (xs : list A) (body : A -> M S unit) : M S unit :=
  match xs with
  | [] => ret tt
  | x :: xs' => body x ;; for_each xs' body
  end.

(** [range(lo, hi)] *)
Definition range (lo hi : Z) : list Z :=
  map (fun i => lo + Z.of_nat i) (seq 0 (Z.to_nat (hi - lo))).

(* ===================================================================== *)
(** ** Files, directories and the working directory *)
(* ===================================================================== *)

Module Fs.
Import PyStr.

(** An absolute path, as its components from the root down. *)
Definition abspath : Type := list string.

(** What a file holds: raw bytes, or a chapter index written by
    [pickle.dump]. *)
Inductive content : Type :=
| Bytes (b : string)
| Pickled (d : Dict.dict).

Definition abspath_eqb (a b : abspath) : bool :=
  if list_eq_dec string_dec a b then true else false.

(** What the opener did, for the record of the run: a request started at
    clock [start] while [_next_request_time] was [allowed]; a response was
    read and the next-allowed time set at clock [t]; a request raised. *)
Inductive event : Type :=
| Request (start allowed : Z)
| Completed (t : Z)
| Failed (t : Z).

(** The process as the source sees it through [os], [time] and the opener. *)
Record process : Type := mkProcess {
  clock : Z;                         (* what [time.time()] reads *)
  cwd : abspath;                     (* [os.getcwd()] *)
  dirs : list abspath;               (* directories, the root apart *)
  files : list (abspath * content);  (* regular files *)
  opens : nat;                       (* calls of the opener so far *)
  trace : list event                 (* the opener's events, latest first *)
}.

Definition set_clock (t : Z) (p : process) : process :=
  mkProcess t (cwd p) (dirs p) (files p) (opens p) (trace p).
Definition set_cwd (c : abspath) (p : process) : process :=
  mkProcess (clock p) c (dirs p) (files p) (opens p) (trace p).
Definition set_dirs (d : list abspath) (p : process) : process :=
  mkProcess (clock p) (cwd p) d (files p) (opens p) (trace p).
Definition set_files (f : list (abspath * content)) (p : process) : process :=
  mkProcess (clock p) (cwd p) (dirs p) f (opens p) (trace p).

(** One path component applied to a directory. *)
Definition step (acc : abspath) (c : string) : abspath :=
  if (String.eqb c "" || String.eqb c ".")%bool then acc
  else if String.eqb c ".." then removelast acc
  else (acc ++ [c])%list.

Definition isabs (p : string) : bool :=
  match p with String "/" _ => true | _ => false end.

(** The absolute path a path string names, seen from [c].  Resolution is
    lexical: [".."] drops the last component. *)
Definition resolve (c : abspath) (p : string) : abspath :=
  fold_left step (split "/" p) (if isabs p then [] else c).

Definition is_dir (p : process) (a : abspath) : bool :=
  match a with
  | [] => true
  | _ => existsb (abspath_eqb a) (dirs p)
  end.

Fixpoint lookup (fs : list (abspath * content)) (a : abspath) : option content :=
  match fs with
  | [] => None
  | (a', c) :: fs' => if abspath_eqb a' a then Some c else lookup fs' a
  end.

Definition is_file (p : process) (a : abspath) : bool :=
  match lookup (files p) a with Some _ => true | None => false end.

(** [files[a] = c] *)
Fixpoint store (fs : list (abspath * content)) (a : abspath) (c : content)
  : list (abspath * content) :=
  match fs with
  | [] => [(a, c)]
  | (a', c') :: fs' =>
      if abspath_eqb a' a then (a', c) :: fs' else (a', c') :: store fs' a c
  end.

(** [os.path.exists(name)] *)
Definition path_exists (name : string) : M process bool :=
  gets (fun p =>
    nonempty name && (is_dir p (resolve (cwd p) name) || is_file p (resolve (cwd p) name)))%bool.

(** [os.path.isdir(name)] *)
Definition path_isdir (name : string) : M process bool :=
  gets (fun p => nonempty name && is_dir p (resolve (cwd p) name))%bool.

(** [os.mkdir(name)] *)
Definition mkdir (name : string) : M process unit :=
  fun p =>
    let a := resolve (cwd p) name in
    if negb (nonempty name) then (Raise FileNotFoundError, p)
    else if (is_dir p a || is_file p a)%bool then (Raise FileExistsError, p)
    else if negb (is_dir p (removelast a)) then (Raise FileNotFoundError, p)
    else (Ok tt, set_dirs (dirs p ++ [a])%list p).

(** [os.chdir(name)] *)
Definition chdir (name : string) : M process unit :=
  fun p =>
    let a := resolve (cwd p) name in
    if negb (nonempty name) then (Raise FileNotFoundError, p)
    else if is_dir p a then (Ok tt, set_cwd a p)
    else if is_file p a then (Raise NotADirectoryError, p)
    else (Raise FileNotFoundError, p).

(** [with open(name, "wb") as fh: fh.write(c)] (also [pickle.dump]) *)
Definition write_file (name : string) (c : content) : M process unit :=
  fun p =>
    let a := resolve (cwd p) name in
    if negb (nonempty name) then (Raise FileNotFoundError, p)
    else if is_dir p a then (Raise IsADirectoryError, p)
    else if negb (is_dir p (removelast a)) then (Raise FileNotFoundError, p)
    else (Ok tt, set_files (store (files p) a c) p).

(** [with open(name, "rb") as fh: pickle.load(fh)] *)
Definition load_pickle (name : string) : M process Dict.dict :=
  fun p =>
    let a := resolve (cwd p) name in
    if negb (nonempty name) then (Raise FileNotFoundError, p)
    else if is_dir p a then (Raise IsADirectoryError, p)
    else match lookup (files p) a with
         | Some (Pickled d) => (Ok d, p)
         | Some (Bytes _) => (Raise UnpicklingError, p)
         | None => (Raise FileNotFoundError, p)
         end.

End Fs.

(* ===================================================================== *)
(** ** The crawler *)
(* ===================================================================== *)

Module Crawler.
Import PyStr Url Validation Fs.

(** What one call of [self._req_opener.open(url)] followed by [rsp.read()]
    comes to: a response with its status code and body, or an exception. *)
Inductive outcome : Type :=
| Response (code : Z) (body : string)
| Raises (e : exn).

(** Everything outside the program: the network, the pace of the clock, and
    the library calls whose results the source only consumes. *)
Record world : Type := mkWorld {
  transport : nat -> string -> outcome;   (* the i-th call of the opener, on a URL *)
  latency : nat -> N;                     (* ticks the i-th call takes *)
  tick : Z -> N;                          (* ticks, beyond one, between a reading
                                             of the clock at [t] and the next *)
  overshoot : nat -> N;                   (* ticks from the last reading of the
                                             clock to the start of the i-th call *)
  chapterlist_hrefs : string -> list string;  (* [href]s of [select("#chapterlist a")] *)
  selectpage_texts : string -> list string;   (* [.text] of [select("div#selectpage")] *)
  img_srcs : string -> list string;           (* [src]s of [select("img#img")] *)
  py_int : string -> option Z;                (* [int(s)], [None] for [ValueError] *)
  urljoin : string -> string -> string        (* [urllib.parse.urljoin] *)
}.

(** The attributes of a [MangaReader] instance. *)
Record MangaReader : Type := mkReader {
  _manga_url : string;
  _target_dir : string;
  _manga_name : string;
  _time_out : Z;
  _retry_count : Z;
  _available_chapters : Dict.dict;
  _current_dir : abspath;
  _total_req_count : Z;
  _total_bytes : Z;
  _wait_time : Z;
  _retry_after : Z;
  _next_request_time : Z
}.

Definition set_available_chapters (d : Dict.dict) (o : MangaReader) : MangaReader :=
  mkReader (_manga_url o) (_target_dir o) (_manga_name o) (_time_out o) (_retry_count o)
    d (_current_dir o) (_total_req_count o) (_total_bytes o) (_wait_time o)
    (_retry_after o) (_next_request_time o).
Definition set_total_req_count (n : Z) (o : MangaReader) : MangaReader :=
  mkReader (_manga_url o) (_target_dir o) (_manga_name o) (_time_out o) (_retry_count o)
    (_available_chapters o) (_current_dir o) n (_total_bytes o) (_wait_time o)
    (_retry_after o) (_next_request_time o).
Definition set_total_bytes (n : Z) (o : MangaReader) : MangaReader :=
  mkReader (_manga_url o) (_target_dir o) (_manga_name o) (_time_out o) (_retry_count o)
    (_available_chapters o) (_current_dir o) (_total_req_count o) n (_wait_time o)
    (_retry_after o) (_next_request_time o).
Definition set_next_request_time (t : Z) (o : MangaReader) : MangaReader :=
  mkReader (_manga_url o) (_target_dir o) (_manga_name o) (_time_out o) (_retry_count o)
    (_available_chapters o) (_current_dir o) (_total_req_count o) (_total_bytes o)
    (_wait_time o) (_retry_after o) t.

(** The object together with the process it runs in. *)
Record state : Type := mkState {
  self : MangaReader;
  proc : process
}.

Definition on_self (f : MangaReader -> MangaReader) : M state unit :=
  modify (fun s => mkState (f (self s)) (proc s)).

(** An operation of the process, run from a method. *)
Definition os {A} (m : M process A) : M state A :=
  fun s => let '(r, p) := m (proc s) in (r, mkState (self s) p).

(** [time.time()] *)
Definition time : M process Z := gets clock.

(** [time.sleep(t)]; a negative length is refused. *)
Definition sleep (t : Z) : M process unit :=
  if t <? 0 then raise ValueError
  else modify (fun p => set_clock (clock p + t) p).

(** [str.isspace] on ASCII. *)
Definition is_space (a : ascii) : bool :=
  let n := nat_of_ascii a in
  ((Nat.leb 9 n && Nat.leb n 13) || (Nat.leb 28 n && Nat.leb n 32))%bool.

(** [text.strip().split()]: the whitespace-separated words of [text]. *)
Fixpoint words (s : string) : list string :=
  match s with
  | EmptyString => []
  | String a s' =>
      if is_space a then words s'
      else match s' with
           | EmptyString => [String a EmptyString]
           | String b _ =>
               if is_space b then String a EmptyString :: words s'
               else match words s' with
                    | h :: t => String a h :: t
                    | [] => [String a EmptyString]
                    end
           end
  end.

(** The directory of a chapter, ["CH-{:03d}".format(chapter_num)]. *)
Definition chapter_dir_name (chapter_num : Z) : string :=
  "CH-" ++ format_0wd 3 chapter_num.

(** The file name [get_chapter] looks for,
    ["{}-{:02d}.jpeg".format(chapter_num, chapter_page)]. *)
Definition checked_image_name (chapter_num chapter_page : Z) : string :=
  str chapter_num ++ "-" ++ format_0wd 2 chapter_page ++ ".jpeg".

(** The file name [get_chapter_page] writes,
    ["{:03d}-{}.jpeg".format(chapter_num, page_num)]. *)
Definition written_image_name (chapter_num page_num : Z) : string :=
  format_0wd 3 chapter_num ++ "-" ++ str page_num ++ ".jpeg".

(** [self._available_chapters.get(chapter_num, (None, 0))] *)
Definition chapter_entry (o : MangaReader) (chapter_num : Z) : option string * Z :=
  match Dict.get (_available_chapters o) chapter_num with
  | Some (u, n) => (Some u, n)
  | None => (None, 0)
  end.

(** Truth value of a URL that may be [None]. *)
Definition truthy (u : option string) : bool :=
  match u with Some u => nonempty u | None => false end.

Definition url_of (u : option string) : string :=
  match u with Some u => u | None => "None" end.

(** The three defaults of the constructor. *)
Definition init_retry_count (retries : Z) : Z := if retries >? 0 then retries else 3.
Definition init_wait_time (wait_time : Z) : Z := if wait_time >? 0 then wait_time else 5.
Definition init_retry_after (retry_after : Z) : Z := if retry_after >? 0 then retry_after else 10.

(** [MangaReader.make_dir_tree], on a POSIX system: [os.path.splitdrive]
    gives the empty drive, which does not exist, so the branch for absolute
    paths only logs; then every component is created and entered. *)
Definition make_dir_tree (dir_path : string) : M process unit :=
  for_each (split "/" dir_path) (fun folder =>
    d <- path_isdir folder ;;
    (if negb d then mkdir folder else ret tt) ;;
    chdir folder).

(** [MangaReader.__init__] *)
Definition __init__ (manga_url target_dir : string)
    (wait_time time_out retries retry_after : Z) : M process MangaReader :=
  let manga_url := strip "/" manga_url in
  make_dir_tree target_dir ;;
  chdir target_dir ;;
  if negb (validate_url manga_url) then raise ValueError
  else
    current_dir <- gets cwd ;;
    now <- time ;;
    ret (mkReader manga_url target_dir (strip "/" (path (urlparse manga_url)))
           time_out (init_retry_count retries) [] current_dir 0 0
           (init_wait_time wait_time) (init_retry_after retry_after)
           (now + init_wait_time wait_time)).

Section Methods.

Variable w : world.

(** Time passes between two readings of the clock: one tick at least. *)
Definition next_reading (t : Z) : Z := t + 1 + Z.of_N (tick w t).

(** [while time.time() < deadline: pass], from a reading [t] of the clock:
    the reading at which the loop is left.  Each turn reads the clock at
    least one tick later, so the loop takes [deadline - t] turns at most,
    which is what [turns] has to cover. *)
Fixpoint spin (turns : nat) (deadline t : Z) : Z :=
  match turns with
  | O => t
  | S n => if t <? deadline then spin n deadline (next_reading t) else t
  end.

(** [while time.time() < self._next_request_time: pass], and the time it
    takes from there to the call of the opener. *)
Definition busy_wait : M state unit :=
  modify (fun s =>
    let p := proc s in
    let deadline := _next_request_time (self s) in
    mkState (self s)
      (set_clock (spin (Z.to_nat (deadline - clock p)) deadline (clock p)
                  + Z.of_N (overshoot w (opens p))) p)).

(** [rsp = self._req_opener.open(url, timeout=...); page_src = rsp.read()] *)
Definition opener_open (url : string) : M state (Z * string) :=
  fun s =>
    let p := proc s in
    let i := opens p in
    let started := Request (clock p) (_next_request_time (self s)) in
    let t := clock p + Z.of_N (latency w i) in
    match transport w i url with
    | Response code body =>
        (Ok (code, body),
         mkState (self s)
           (mkProcess t (cwd p) (dirs p) (files p) (S i) (started :: trace p)))
    | Raises e =>
        (Raise e,
         mkState (self s)
           (mkProcess t (cwd p) (dirs p) (files p) (S i) (Failed t :: started :: trace p)))
    end.

(** [self._next_request_time = time.time() + self._wait_time] *)
Definition advance_next_request_time : M state unit :=
  modify (fun s =>
    let p := proc s in
    mkState (set_next_request_time (clock p + _wait_time (self s)) (self s))
      (mkProcess (clock p) (cwd p) (dirs p) (files p) (opens p)
         (Completed (clock p) :: trace p))).

(** The body of the [try] block of [get_page_source]. *)
Definition request (url : string) : M state (bool * option string) :=
  busy_wait ;;
  ' (code, page_src) <- opener_open url ;;
  status <- (if code =? 200
             then on_self (fun o =>
                    set_total_bytes (_total_bytes o + Z.of_nat (String.length page_src)) o) ;;
                  ret true
             else ret false) ;;
  on_self (fun o => set_total_req_count (_total_req_count o + 1) o) ;;
  advance_next_request_time ;;
  ret (status, Some page_src).

(** The [try] block with its [except] clauses: whatever exception the
    request raises is caught, leaving [status] and [page_src] as they were
    set before the [try]. *)
Definition attempt (url : string) : M state (bool * option string) :=
  catch (request url) (fun _ => ret (false, None)).

(** [MangaReader.get_page_source], by the number of retries left: after
    the attempt, the [finally] block retries after a sleep while retries
    remain. *)
Fixpoint get_page_source_n (url : string) (retries_left : nat)
  : M state (bool * option string) :=
  ' (status, page_src) <- attempt url ;;
  if negb status then
    match retries_left with
    | S n =>
        retry_after <- gets (fun s => _retry_after (self s)) ;;
        os (sleep retry_after) ;;
        get_page_source_n url n
    | O => ret (status, page_src)
    end
  else ret (status, page_src).

Definition get_page_source (url : string) (retry_count : Z)
  : M state (bool * option string) :=
  get_page_source_n url (Z.to_nat retry_count).

(** [Soup(page_html, "lxml")] needs markup; [None] is refused. *)
Definition markup (page_html : option string) : M state string :=
  match page_html with
  | Some html => ret html
  | None => raise TypeError
  end.

(** [int(chapter_pages[0].text.strip().split()[-1])] *)
Definition page_count_of (text : string) : M state Z :=
  match rev (words text) with
  | [] => raise IndexError
  | word :: _ =>
      match py_int w word with
      | Some n => ret n
      | None => raise ValueError
      end
  end.

(** The [for] loop of [get_chapter_list] over the chapter links, from
    chapter number [ch_num] on.  [retry] is what the loop does when a
    chapter page cannot be fetched: another discovery, or nothing once the
    retries are used up.  The loop goes on with the next link either way. *)
Fixpoint chapter_loop (retry : M state unit) (links : list string) (ch_num : Z)
  : M state unit :=
  match links with
  | [] => ret tt
  | href :: rest =>
      let chapter_url := urljoin w _base_address href in
      ' (status, page_html) <- get_page_source chapter_url 3 ;;
      (if status then
         html <- markup page_html ;;
         match selectpage_texts w html with
         | text :: _ =>
             chapter_pages <- page_count_of text ;;
             on_self (fun o =>
               set_available_chapters
                 (Dict.set (_available_chapters o) ch_num (chapter_url, chapter_pages)) o)
         | [] =>
             on_self (fun o =>
               set_available_chapters
                 (Dict.set (_available_chapters o) ch_num (chapter_url, 0)) o) ;;
             raise TypeError
         end
       else retry) ;;
      chapter_loop retry rest (ch_num + 1)
  end.

(** [MangaReader.get_chapter_list], by the number of retries left. *)
Fixpoint get_chapter_list_n (retries_left : nat) : M state unit :=
  let retry :=
    match retries_left with
    | S n => get_chapter_list_n n
    | O => ret tt
    end in
  manga_url <- gets (fun s => _manga_url (self s)) ;;
  ' (status, page_html) <- get_page_source manga_url 3 ;;
  if status then
    html <- markup page_html ;;
    match chapterlist_hrefs w html with
    | [] => ret tt
    | chapters_links => chapter_loop retry chapters_links 1
    end
  else retry.

Definition get_chapter_list (retry_count : Z) : M state unit :=
  get_chapter_list_n (Z.to_nat retry_count).

(** The name of the index file, ["{}.pkl".format(self._manga_name)]. *)
Definition data_file (o : MangaReader) : string := _manga_name o ++ ".pkl".

(** [MangaReader.save_chapter_list] *)
Definition save_chapter_list : M state unit :=
  o <- gets self ;;
  found <- os (path_exists (data_file o)) ;;
  if negb found then
    os (write_file (data_file o) (Pickled (_available_chapters o)))
  else
    old_chapters <- os (load_pickle (data_file o)) ;;
    os (write_file (data_file o)
          (Pickled (Dict.update old_chapters (_available_chapters o)))).

(** [MangaReader.load_chapter_list] *)
Definition load_chapter_list : M state bool :=
  o <- gets self ;;
  found <- os (path_exists (data_file o)) ;;
  if found then
    d <- os (load_pickle (data_file o)) ;;
    on_self (set_available_chapters d) ;;
    ret true
  else ret false.

(** [MangaReader.save_image] *)
Definition save_image (image_url image_name : string) : M state unit :=
  ' (status, image_source) <- get_page_source image_url 3 ;;
  if status then
    match image_source with
    | Some b => os (write_file image_name (Bytes b))
    | None => raise TypeError
    end
  else ret tt.

(** [MangaReader.get_chapter_page], by the number of retries left. *)
Fixpoint get_chapter_page_n (chapter_num page_num : Z) (retries_left : nat)
  : M state unit :=
  o <- gets self ;;
  let '(chapter_url, chapter_pages_count) := chapter_entry o chapter_num in
  if negb (truthy chapter_url) then ret tt
  else if ((0 >=? page_num) && (page_num >? chapter_pages_count))%bool then ret tt
  else
    let page_url := url_of chapter_url ++ "/" ++ str page_num in
    ' (status, page_source) <- get_page_source page_url 3 ;;
    if status then
      html <- markup page_source ;;
      match img_srcs w html with
      | image_url :: _ => save_image image_url (written_image_name chapter_num page_num)
      | [] => ret tt
      end
    else
      match retries_left with
      | S n => get_chapter_page_n chapter_num page_num n
      | O => ret tt
      end.

Definition get_chapter_page (chapter_num page_num retry_count : Z) : M state unit :=
  get_chapter_page_n chapter_num page_num (Z.to_nat retry_count).

(** [MangaReader.get_chapter]; its [retry_count] is not used. *)
Definition get_chapter (chapter_num : Z) : M state unit :=
  o <- gets self ;;
  let '(chapter_url, chapter_page_count) := chapter_entry o chapter_num in
  if truthy chapter_url then
    found <- os (path_exists (chapter_dir_name chapter_num)) ;;
    (if negb found then os (mkdir (chapter_dir_name chapter_num)) else ret tt) ;;
    os (chdir (chapter_dir_name chapter_num)) ;;
    for_each (range 1 (chapter_page_count + 1)) (fun chapter_page =>
      present <- os (path_exists (checked_image_name chapter_num chapter_page)) ;;
      if present then ret tt
      else get_chapter_page chapter_num chapter_page 3) ;;
    os (chdir (_target_dir o))
  else ret tt.

(** [MangaReader.grab_all_chapters] *)
Definition grab_all_chapters : M state unit :=
  status <- load_chapter_list ;;
  (if status then ret tt
   else get_chapter_list 3 ;; save_chapter_list) ;;
  chapters <- gets (fun s => Dict.keys (_available_chapters (self s))) ;;
  for_each chapters get_chapter.

End Methods.

(** [c = MangaReader(...)] in a process: the object, when the constructor
    returns, paired with the process it leaves. *)
Definition construct (manga_url target_dir : string)
    (wait_time time_out retries retry_after : Z) (p : process) : result state :=
  match __init__ manga_url target_dir wait_time time_out retries retry_after p with
  | (Ok o, p') => Ok (mkState o p')
  | (Raise e, _) => Raise e
  end.

End Crawler.

(* ===================================================================== *)
(** ** Concrete runs *)
(* ===================================================================== *)

(** A small site and a small process, used to run the methods. *)
Module Scenario.
Import PyStr Url Validation Fs Crawler.

(** [int(s)] on an unsigned decimal numeral. *)
Fixpoint digits_value (acc : Z) (s : string) : option Z :=
  match s with
  | EmptyString => Some acc
  | String a s' =>
      if is_digit a
      then digits_value (10 * acc + Z.of_nat (nat_of_ascii a - 48)) s'
      else None
  end.

Definition decimal (s : string) : option Z :=
  match s with
  | EmptyString => None
  | _ => digits_value 0 s
  end.

(** [urljoin] of the base address with a link that is an absolute path. *)
Definition join_path (base href : string) : string :=
  match href with
  | EmptyString => base
  | _ => rstrip "/" base ++ href
  end.

Definition series_url : string := "http://www.mangareader.net/naruto".
Definition chapter1_url : string := "http://www.mangareader.net/naruto/1".
Definition chapter2_url : string := "http://www.mangareader.net/naruto/2".
Definition image_url : string := "http://i.mangareader.net/naruto/p.jpg".

(** A site is the table of what it answers, URL by URL; anything else is
    an HTTP error. *)
Fixpoint answer (site : list (string * outcome)) (url : string) : outcome :=
  match site with
  | [] => Raises HTTPError
  | (u, o) :: site' => if String.eqb u url then o else answer site' url
  end.

(** Markup: the series page is ["S"] (["T"] once its first link has
    changed), a chapter page with its page-count marker ["C"], one without
    ["c"], a page view ["V"]. *)
Definition hrefs_of (html : string) : list string :=
  if String.eqb html "S" then ["/naruto/1"; "/naruto/2"]
  else if String.eqb html "T" then ["/naruto/9"; "/naruto/2"]
  else [].

Definition selectpage_of (html : string) : list string :=
  if String.eqb html "C" then [" of 2"] else [].

Definition img_of (html : string) : list string :=
  if String.eqb html "V" then [image_url] else [].

Definition site_world (site : list (string * outcome)) : world :=
  mkWorld (fun _ => answer site) (fun _ => 2%N) (fun _ => 0%N) (fun _ => 0%N)
    hrefs_of selectpage_of img_of decimal join_path.

(** Every page is served. *)
Definition healthy_site : list (string * outcome) :=
  [ (series_url, Response 200 "S");
    (chapter1_url, Response 200 "C");
    (chapter2_url, Response 200 "C");
    (chapter1_url ++ "/0", Response 200 "V");
    (chapter1_url ++ "/1", Response 200 "V");
    (chapter1_url ++ "/2", Response 200 "V");
    (chapter2_url ++ "/1", Response 200 "V");
    (chapter2_url ++ "/2", Response 200 "V");
    (image_url, Response 200 "JPEG") ].

(** The page of chapter 1 cannot be fetched. *)
Definition chapter1_down : list (string * outcome) :=
  [ (series_url, Response 200 "S");
    (chapter1_url, Raises URLError);
    (chapter2_url, Response 200 "C") ].

(** The page of chapter 1 has no page-count marker. *)
Definition chapter1_unmarked : list (string * outcome) :=
  [ (series_url, Response 200 "S");
    (chapter1_url, Response 200 "c");
    (chapter2_url, Response 200 "C") ].

(** A site that changes during discovery: the page of chapter 2 cannot be
    fetched at first; from the seventh request on it can, and the series
    page lists another first link. *)
Definition chapter9_url : string := "http://www.mangareader.net/naruto/9".

Definition moving_world : world :=
  mkWorld
    (fun i => if Nat.ltb i 6
              then answer [ (series_url, Response 200 "S");
                            (chapter1_url, Response 200 "C");
                            (chapter2_url, Raises URLError) ]
              else answer [ (series_url, Response 200 "T");
                            (chapter9_url, Response 200 "C");
                            (chapter2_url, Response 200 "C") ])
    (fun _ => 2%N) (fun _ => 0%N) (fun _ => 0%N)
    hrefs_of selectpage_of img_of decimal join_path.

(** Every request is answered, with a status other than 200. *)
Definition accepted_world : world :=
  mkWorld (fun _ _ => Response 202 "x") (fun _ => 2%N) (fun _ => 0%N) (fun _ => 0%N)
    hrefs_of selectpage_of img_of decimal join_path.

(** A process started in [/home/manga], an existing directory. *)
Definition home : abspath := ["home"; "manga"].

Definition process0 : process :=
  mkProcess 0 home [["home"]; home] [] 0 [].

(** The same process, a run later: the index of two chapters of two pages
    each has been saved. *)
Definition saved_index : Dict.dict :=
  [(1, (chapter1_url, 2)); (2, (chapter2_url, 2))].

Definition process_saved : process :=
  mkProcess 0 home [["home"]; home]
    [((home ++ ["naruto.pkl"])%list, Pickled saved_index)] 0 [].

(** An object as the constructor leaves it for the series, with a given
    target directory and chapter index. *)
Definition reader (target_dir : string) (index : Dict.dict) : MangaReader :=
  mkReader series_url target_dir "naruto" 10 3 index home 0 0 5 10 5.

(** A site that serves every request, every page showing the same image. *)
Definition open_world : world :=
  mkWorld (fun _ _ => Response 200 "JPEG") (fun _ => 2%N) (fun _ => 0%N) (fun _ => 0%N)
    hrefs_of selectpage_of (fun _ => [image_url]) decimal join_path.

End Scenario.

(* ===================================================================== *)
(** ** Vocabulary of the properties *)
(* ===================================================================== *)

Module Props.
Import PyStr Url Validation Fs Crawler.
Local Open Scope py_scope.

(** The first character of a string. *)
Definition first_char (s : string) : option ascii :=
  match s with
  | String c _ => Some c
  | EmptyString => None
  end.

(** The two ways of writing a chapter number, plain and on three digits,
    start with different characters. *)
Definition starts_apart (chapter_num : Z) : bool :=
  match first_char (str chapter_num), first_char (format_0wd 3 chapter_num) with
  | Some a, Some b => negb (Ascii.eqb a b)
  | _, _ => false
  end.

(** An attempt fails when the opener raises or the status is not 200. *)
Definition fails (o : outcome) : bool :=
  match o with
  | Response code _ => negb (code =? 200)
  | Raises _ => true
  end.

(** What [page_src] holds after an attempt. *)
Definition body_of (o : outcome) : option string :=
  match o with
  | Response _ body => Some body
  | Raises _ => None
  end.

(** The clock when the request of an attempt made in state [s] starts, and
    when it ends. *)
Definition request_start (w : world) (s : state) : Z :=
  spin w (Z.to_nat (_next_request_time (self s) - clock (proc s)))
    (_next_request_time (self s)) (clock (proc s))
  + Z.of_N (overshoot w (opens (proc s))).

Definition request_end (w : world) (s : state) : Z :=
  request_start w s + Z.of_N (latency w (opens (proc s))).

(** The state after [time.sleep(t)]. *)
Definition slept (t : Z) (s : state) : state :=
  mkState (self s) (set_clock (clock (proc s) + t) (proc s)).

(** The completion time of the latest completed request of a trace. *)
Fixpoint last_completed (tr : list event) : option Z :=
  match tr with
  | [] => None
  | Completed c :: _ => Some c
  | _ :: earlier => last_completed earlier
  end.

(** A trace (latest event first) is paced for the wait interval [W] when
    every request in it started
    - not before the next-allowed time in force when it started,
    - with that time being the latest completion plus [W], if a request
      had completed before, and
    - at least [W] after every request completed before it. *)
Fixpoint paced (W : Z) (tr : list event) : Prop :=
  match tr with
  | [] => True
  | Request start allowed :: earlier =>
      allowed <= start
      /\ (forall c, last_completed earlier = Some c -> allowed = c + W)
      /\ (forall c, In (Completed c) earlier -> c + W <= start)
      /\ paced W earlier
  | _ :: earlier => paced W earlier
  end.

(** The invariant of the fetcher: the trace so far is paced, the
    next-allowed time is the latest completion plus the wait interval, and
    no request can start less than the interval after a completion. *)
Definition pacing_invariant (s : state) : Prop :=
  let W := _wait_time (self s) in
  paced W (trace (proc s))
  /\ (forall c, last_completed (trace (proc s)) = Some c ->
                _next_request_time (self s) = c + W)
  /\ (forall c, In (Completed c) (trace (proc s)) ->
                c + W <= Z.max (clock (proc s)) (_next_request_time (self s))).

(** The attributes no method assigns after construction. *)
Definition same_config (o o' : MangaReader) : Prop :=
  _manga_url o' = _manga_url o
  /\ _target_dir o' = _target_dir o
  /\ _manga_name o' = _manga_name o
  /\ _time_out o' = _time_out o
  /\ _retry_count o' = _retry_count o
  /\ _current_dir o' = _current_dir o
  /\ _wait_time o' = _wait_time o
  /\ _retry_after o' = _retry_after o.

(** What a fetch leaves alone: the configuration, the chapter index, the
    working directory and the file system. *)
Definition fetch_frame (s s' : state) : Prop :=
  same_config (self s) (self s')
  /\ _available_chapters (self s') = _available_chapters (self s)
  /\ cwd (proc s') = cwd (proc s)
  /\ dirs (proc s') = dirs (proc s)
  /\ files (proc s') = files (proc s).

(** An operation on files and directories is quiet: it leaves the clock,
    the count of requests and the trace alone. *)
Definition quiet {A} (m : M process A) : Prop :=
  forall p, clock (snd (m p)) = clock p
            /\ opens (snd (m p)) = opens p
            /\ trace (snd (m p)) = trace p.

(** The exceptions of the file operations. *)
Definition os_error (e : exn) : Prop :=
  e = FileNotFoundError \/ e = FileExistsError
  \/ e = NotADirectoryError \/ e = IsADirectoryError.

(** The exceptions of discovery: the [raise] after a missing page-count
    marker, and the conversion of a marker that does not end in a number. *)
Definition discovery_error (e : exn) : Prop :=
  e = TypeError \/ e = ValueError \/ e = IndexError.

(** A specification of a computation: it keeps the invariant [I] whether
    it returns or raises; what it returns satisfies [Q]; what it raises
    satisfies [E]. *)
Definition spec {S A} (I : S -> Prop) (E : exn -> Prop) (m : M S A) (Q : A -> Prop)
  : Prop :=
  forall s, I s ->
    I (snd (m s))
    /\ match fst (m s) with
       | Ok a => Q a
       | Raise e => E e
       end.

(** Every chapter page carries a page-count marker whose text ends in an
    integer. *)
Definition markers_well_formed (w : world) : Prop :=
  forall html,
    match selectpage_texts w html with
    | text :: _ =>
        match rev (words text) with
        | word :: _ => py_int w word <> None
        | [] => False
        end
    | [] => False
    end.

(** No request fails: the site answers every one with status 200. *)
Definition always_serves (w : world) : Prop :=
  forall i url, exists body, transport w i url = Response 200 body.

(** The index of the chapters numbered from [ch_num] on, for the links of
    a series page and the page counts of their chapters. *)
Fixpoint numbered (w : world) (ch_num : Z) (links : list string) (counts : list Z)
  : Dict.dict :=
  match links, counts with
  | href :: links', n :: counts' =>
      (ch_num, (urljoin w _base_address href, n)) :: numbered w (ch_num + 1) links' counts'
  | _, _ => []
  end.

(** The keys of an index are unique positive integers. *)
Definition unique_positive (d : Dict.dict) : Prop :=
  NoDup (Dict.keys d) /\ Forall (fun k => 1 <= k) (Dict.keys d).

(** The keys [1 .. k], in order. *)
Definition one_to (k : nat) : list Z := map Z.of_nat (seq 1 k).

(** Two runs on the same series in the same directory, the first having
    found the index [d1] and the second [d2], each saving what it found;
    then a third that loads. *)
Definition save_save_load (d1 d2 : Dict.dict) : M state bool :=
  on_self (set_available_chapters d1) ;;
  save_chapter_list ;;
  on_self (set_available_chapters d2) ;;
  save_chapter_list ;;
  load_chapter_list.

(** The place of the index file of the object, seen from the working
    directory. *)
Definition data_path (s : state) : abspath :=
  resolve (cwd (proc s)) (data_file (self s)).

(** A name without a slash. *)
Definition slashless (name : string) : bool :=
  PyStr.forallb (fun a => negb (Ascii.eqb a "/")) name.

(** A path component that names an entry of a directory: neither empty
    nor ["."] nor [".."]. *)
Definition plain (name : string) : bool :=
  negb (String.eqb name "" || String.eqb name "." || String.eqb name "..").

(** The body of the loop of [make_dir_tree]: enter [folder], creating it
    when it is not there. *)
Definition enter_creating (folder : string) : M process unit :=
  d <- path_isdir folder ;;
  (if negb d then mkdir folder else ret tt) ;;
  chdir folder.

(** Among the [k] calls of the opener from the [i]-th on, all on [url]:
    how many got a response, whatever its status, and how many bytes the
    responses with status 200 carried. *)
Fixpoint answered (w : world) (url : string) (i k : nat) : Z :=
  match k with
  | O => 0
  | S k' =>
      match transport w i url with
      | Response _ _ => 1
      | Raises _ => 0
      end + answered w url (S i) k'
  end.

Fixpoint received (w : world) (url : string) (i k : nat) : Z :=
  match k with
  | O => 0
  | S k' =>
      match transport w i url with
      | Response code body => if code =? 200 then Z.of_nat (String.length body) else 0
      | Raises _ => 0
      end + received w url (S i) k'
  end.

(** What a download leaves alone, the files apart: the configuration, the
    chapter index, the working directory and the directories. *)
Definition download_frame (s s' : state) : Prop :=
  same_config (self s) (self s')
  /\ _available_chapters (self s') = _available_chapters (self s)
  /\ cwd (proc s') = cwd (proc s)
  /\ dirs (proc s') = dirs (proc s).

(** A computation that calls the opener [B] times at most. *)
Definition costs {A} (m : M state A) (B : nat) : Prop :=
  forall s, (opens (proc (snd (m s))) <= opens (proc s) + B)%nat.

(** The body of the loop of [get_chapter] over the pages of a chapter. *)
Definition fetch_missing_page (w : world) (chapter_num chapter_page : Z) : M state unit :=
  present <- os (path_exists (checked_image_name chapter_num chapter_page)) ;;
  if present then ret tt
  else get_chapter_page w chapter_num chapter_page 3.

(** The [i]-th call of the opener serves the page at [page_url], the page
    shows an image, and the call after it serves that image, whose bytes
    are [body]. *)
Definition serves_page (w : world) (i : nat) (page_url body : string) : Prop :=
  exists html src rest,
    transport w i page_url = Response 200 html
    /\ img_srcs w html = src :: rest
    /\ transport w (S i) src = Response 200 body.

(** A chapter is being downloaded into [dir]: the chapter is in the index,
    the process is in [dir], no entry of [dir] is a directory, and no page
    has a file under the name [get_chapter] looks for. *)
Definition downloading (chapter_num : Z) (url : string) (count : Z) (dir : abspath)
    (t : state) : Prop :=
  Dict.get (_available_chapters (self t)) chapter_num = Some (url, count)
  /\ cwd (proc t) = dir
  /\ is_dir (proc t) dir = true
  /\ (forall name, is_dir (proc t) (dir ++ [name])%list = false)
  /\ (forall page, is_file (proc t) (dir ++ [checked_image_name chapter_num page])%list
                   = false).

(** No request of the trace started before [t], and none can from now
    on. *)
Definition not_before (t : Z) (s : state) : Prop :=
  (forall start allowed, In (Request start allowed) (trace (proc s)) -> t <= start)
  /\ t <= Z.max (clock (proc s)) (_next_request_time (self s)).

End Props.

(* ===================================================================== *)
(** * Properties *)
(* ===================================================================== *)

(** ** Strings: stripping and splitting *)

Module PyStrFacts.
Import PyStr.

Lemma split_not_nil c s : split c s <> [].
Proof.
  destruct s as [|a s]; simpl; [discriminate|].
  destruct (Ascii.eqb a c); [discriminate|].
  destruct (split c s); discriminate.
Qed.

Lemma pieces_lstrip c s :
  filter nonempty (split c (lstrip c s)) = filter nonempty (split c s).
Proof.
  induction s as [|a s IH]; [reflexivity|].
  simpl. destruct (Ascii.eqb a c) eqn:E; [exact IH|].
  simpl. now rewrite E.
Qed.

Lemma rstrip_cons c a s :
  Ascii.eqb a c = false -> rstrip c (String a s) = String a (rstrip c s).
Proof. intros E. simpl. rewrite E. now destruct (rstrip c s). Qed.

Lemma split_rstrip c s :
  exists k, split c s = (split c (rstrip c s) ++ repeat "" k)%list.
Proof.
  induction s as [|a s [k IH]].
  - exists 0%nat. reflexivity.
  - destruct (Ascii.eqb a c) eqn:E.
    + simpl. rewrite E. destruct (rstrip c s) as [|b r] eqn:R.
      * exists (S k). rewrite IH. reflexivity.
      * exists k. simpl split at 2. rewrite E. rewrite IH. reflexivity.
    + exists k. rewrite (rstrip_cons _ _ _ E). simpl. rewrite E.
      rewrite IH. destruct (split c (rstrip c s)) eqn:S0.
      * now destruct (split_not_nil c (rstrip c s)).
      * reflexivity.
Qed.

Lemma filter_nonempty_repeat (l : list string) k :
  filter nonempty (l ++ repeat "" k)%list = filter nonempty l.
Proof.
  rewrite filter_app.
  assert (H : filter nonempty (repeat "" k) = []) by (induction k; simpl; auto).
  rewrite H. apply app_nil_r.
Qed.

Lemma pieces_rstrip c s :
  filter nonempty (split c (rstrip c s)) = filter nonempty (split c s).
Proof.
  destruct (split_rstrip c s) as [k H]. rewrite H.
  now rewrite filter_nonempty_repeat.
Qed.

(** Stripping changes no non-empty piece. *)
Lemma pieces_strip c s :
  filter nonempty (split c (strip c s)) = filter nonempty (split c s).
Proof. unfold strip. now rewrite pieces_rstrip, pieces_lstrip. Qed.

Lemma lstrip_head c s :
  lstrip c s = "" \/ exists a r, lstrip c s = String a r /\ Ascii.eqb a c = false.
Proof.
  induction s as [|a s IH]; [now left|].
  simpl. destruct (Ascii.eqb a c) eqn:E; [exact IH|].
  right. now exists a, s.
Qed.

Lemma rstrip_last c s :
  rstrip c s = "" \/ nonempty (last (split c (rstrip c s)) "") = true.
Proof.
  induction s as [|a s IH]; [now left|].
  simpl. destruct (rstrip c s) as [|b r] eqn:R.
  - destruct (Ascii.eqb a c) eqn:E; [now left|].
    right. simpl. now rewrite E.
  - right. destruct IH as [IH|IH]; [discriminate|].
    remember (String b r) as q eqn:Q. clear Q R.
    simpl split. destruct (Ascii.eqb a c).
    + destruct (split c q) eqn:S0; [now destruct (split_not_nil c q)|].
      exact IH.
    + destruct (split c q) as [|h t] eqn:S0; [now destruct (split_not_nil c q)|].
      destruct t; [reflexivity|exact IH].
Qed.

Lemma nonempty_last_filter (l : list string) :
  l <> [] -> nonempty (last l "") = true -> filter nonempty l <> [].
Proof.
  induction l as [|x l IH]; [congruence|].
  intros _ H. destruct l as [|y l].
  - simpl in *. now rewrite H.
  - simpl filter. destruct (nonempty x); [discriminate|].
    apply IH; [discriminate|exact H].
Qed.

(** After stripping, there is more than one piece exactly when there is
    more than one non-empty piece. *)
Lemma split_strip_many c s :
  (1 <? List.length (split c (strip c s)))%nat
  = (1 <? List.length (filter nonempty (split c s)))%nat.
Proof.
  rewrite <- (pieces_strip c s). unfold strip.
  destruct (lstrip_head c s) as [H|(a & r & H & E)]; rewrite H.
  - reflexivity.
  - rewrite (rstrip_cons _ _ _ E).
    pose proof (rstrip_last c (String a r)) as L.
    rewrite (rstrip_cons _ _ _ E) in L. destruct L as [L|L]; [discriminate|].
    simpl split in *. rewrite E in *.
    destruct (split c (rstrip c r)) as [|h t] eqn:S0;
      [now destruct (split_not_nil c (rstrip c r))|].
    destruct t as [|x t]; [reflexivity|].
    change (last (String a h :: x :: t) "") with (last (x :: t) "") in L.
    pose proof (nonempty_last_filter (x :: t) ltac:(discriminate) L) as F.
    remember (x :: t) as tl eqn:T.
    simpl. destruct (filter nonempty tl); [congruence|].
    subst tl. reflexivity.
Qed.

(** The formats of the source, run. *)
Example format_03d_1 : format_0wd 3 1 = "001".
Proof. reflexivity. Qed.

Example format_03d_123 : format_0wd 3 1234 = "1234".
Proof. reflexivity. Qed.

Example format_03d_minus_5 : format_0wd 3 (-5) = "-05".
Proof. reflexivity. Qed.

Example format_02d_7 : format_0wd 2 7 = "07".
Proof. reflexivity. Qed.

Example str_minus_12 : str (-12) = "-12".
Proof. reflexivity. Qed.

Example strip_slashes : strip "/" "//a/b/" = "a/b".
Proof. reflexivity. Qed.

Example split_slashes : split "/" "a//b" = ["a"; ""; "b"].
Proof. reflexivity. Qed.

Example split_empty : split "/" "" = [""].
Proof. reflexivity. Qed.

End PyStrFacts.

(** ** URL validation *)

Module ValidationFacts.
Import PyStr Url Validation.

Lemma nonempty_true s : nonempty s = true <-> s <> "".
Proof. destruct s; simpl; split; congruence. Qed.

(** What [validate_url] decides: the network location of the source site, a
    non-empty path, and at most one segment after the leading character of
    the path. *)
Lemma validate_url_iff url :
  validate_url url = true <->
  netloc (urlparse url) = netloc (urlparse _base_address)
  /\ path (urlparse url) <> ""
  /\ (List.length (segments (drop1 (path (urlparse url)))) <= 1)%nat.
Proof.
  unfold validate_url, segments.
  rewrite PyStrFacts.split_strip_many.
  destruct (String.eqb_spec (netloc (urlparse url)) (netloc (urlparse _base_address))) as [E|E];
    simpl negb; cbv iota.
  - destruct (nonempty (path (urlparse url))) eqn:P; simpl negb; cbv iota.
    + apply nonempty_true in P.
      destruct (Nat.ltb_spec 1
        (List.length (filter nonempty (split "/" (drop1 (path (urlparse url))))))).
      * split; [discriminate|]. intros (_ & _ & H'). lia.
      * split; [|reflexivity]. intros _. repeat split; auto.
    + split; [discriminate|]. intros (_ & H & _).
      apply nonempty_true in H. congruence.
  - split; [discriminate|]. intros (H & _). contradiction.
Qed.

Lemma span_netloc_rest s :
  snd (span_netloc s) = ""
  \/ exists c r, snd (span_netloc s) = String c r
                 /\ (c = "/" \/ c = "?" \/ c = "#")%char.
Proof.
  induction s as [|a s IH]; [now left|]. simpl.
  destruct (Ascii.eqb_spec a "/") as [->|N1]; simpl;
    [right; exists "/"%char, s; tauto|].
  destruct (Ascii.eqb_spec a "?") as [->|N2]; simpl;
    [right; exists "?"%char, s; tauto|].
  destruct (Ascii.eqb_spec a "#") as [->|N3]; simpl;
    [right; exists "#"%char, s; tauto|].
  destruct (span_netloc s) as [n r]. exact IH.
Qed.

Lemma split_netloc_cases u :
  split_netloc u = ("", u) \/ exists r, split_netloc u = span_netloc r.
Proof.
  unfold split_netloc.
  repeat match goal with
         | |- context [match ?x with _ => _ end] => destruct x; auto
         end.
  right. eexists. reflexivity.
Qed.

Lemma before_same c r : before c (String c r) = "".
Proof. unfold before. simpl. now rewrite Ascii.eqb_refl. Qed.

Lemma before_other c a r :
  Ascii.eqb a c = false -> exists r', before c (String a r) = String a r'.
Proof.
  intros N. unfold before. simpl. rewrite N.
  destruct (find c r); eexists; reflexivity.
Qed.

Lemma strip_params_slash r : exists r', strip_params (String "/" r) = String "/" r'.
Proof.
  unfold strip_params. simpl.
  destruct (rfind_slash r) as [i|].
  - simpl. destruct (find ";" (drop i r)); eexists; reflexivity.
  - simpl. destruct (find ";" r); eexists; reflexivity.
Qed.

(** Behind a network location, the path [urlparse] gives is empty or
    starts with a slash. *)
Lemma urlparse_path_slash url :
  netloc (urlparse url) <> "" ->
  path (urlparse url) = "" \/ exists r, path (urlparse url) = String "/" r.
Proof.
  unfold urlparse. destruct (split_scheme url) as [sch rest].
  destruct (split_netloc_cases rest) as [E|[r E]]; rewrite E.
  - simpl. congruence.
  - pose proof (span_netloc_rest r) as R.
    destruct (span_netloc r) as [loc rest1]. simpl in *. intros _.
    assert (P : before "?" (before "#" rest1) = ""
                \/ exists r', before "?" (before "#" rest1) = String "/" r').
    { destruct R as [R|(c & r1 & R & C)]; rewrite R; [now left|].
      destruct C as [C|[C|C]]; rewrite C.
      - right. destruct (before_other "#" "/" r1 eq_refl) as [r2 ->].
        destruct (before_other "?" "/" r2 eq_refl) as [r3 ->]. now exists r3.
      - left. destruct (before_other "#" "?" r1 eq_refl) as [r2 ->].
        apply before_same.
      - left. now rewrite before_same. }
    destruct P as [->|[r' ->]].
    + left. now destruct (uses_params sch).
    + right. destruct (uses_params sch); [apply strip_params_slash|now exists r'].
Qed.

Lemma segments_drop1 p :
  p = "" \/ (exists r, p = String "/" r) -> segments (drop1 p) = segments p.
Proof. intros [->|[r ->]]; reflexivity. Qed.

(** What [validate_url] decides, in the terms of the rule: the network
    location of the source site, a non-empty path, at most one segment. *)
Lemma validate_url_at_most_one_segment url :
  validate_url url = true <->
  netloc (urlparse url) = netloc (urlparse _base_address)
  /\ path (urlparse url) <> ""
  /\ (List.length (segments (path (urlparse url))) <= 1)%nat.
Proof.
  rewrite validate_url_iff. split; intros (N & P & L); repeat split; auto.
  - rewrite <- segments_drop1; [exact L|].
    apply urlparse_path_slash. rewrite N. discriminate.
  - rewrite segments_drop1; [exact L|].
    apply urlparse_path_slash. rewrite N. discriminate.
Qed.

(** The source and the rule differ exactly on the non-empty paths without
    a segment, the paths made of slashes. *)
Lemma validate_url_vs_rule url :
  validate_url url = true <->
  spec_series_url url
  \/ (netloc (urlparse url) = netloc (urlparse _base_address)
      /\ path (urlparse url) <> ""
      /\ segments (path (urlparse url)) = []).
Proof.
  rewrite validate_url_at_most_one_segment. unfold spec_series_url.
  destruct (segments (path (urlparse url))) as [|x [|y l]]; simpl;
    intuition (try lia; try discriminate).
Qed.

(** C9.  [validate_url] accepts the root of the source site when it is
    written with its slash, a URL that addresses no series: its path is
    non-empty but has no segment, so the rule of the specification (exactly
    one segment) rejects it.  The constructor strips the slashes at both
    ends of the URL first, yet the root still gets through it with a query
    behind the slash. *)
Theorem validate_url_accepts_site_root :
  validate_url "http://www.mangareader.net/" = true
  /\ path (urlparse "http://www.mangareader.net/") = "/"
  /\ segments (path (urlparse "http://www.mangareader.net/")) = []
  /\ ~ spec_series_url "http://www.mangareader.net/"
  /\ validate_url (strip "/" "http://www.mangareader.net/?page=1") = true
  /\ ~ spec_series_url (strip "/" "http://www.mangareader.net/?page=1").
Proof.
  repeat split; try reflexivity.
  - intros (_ & _ & H). vm_compute in H. discriminate.
  - intros (_ & _ & H). vm_compute in H. discriminate.
Qed.

(** On a path with at least one segment the source and the rule agree. *)
Lemma validate_url_one_segment url :
  segments (drop1 (path (urlparse url))) <> [] ->
  (validate_url url = true <->
   netloc (urlparse url) = netloc (urlparse _base_address)
   /\ path (urlparse url) <> ""
   /\ List.length (segments (drop1 (path (urlparse url)))) = 1%nat).
Proof.
  intros H. rewrite validate_url_iff.
  destruct (segments (drop1 (path (urlparse url)))) as [|x l]; [congruence|].
  simpl. intuition lia.
Qed.

(** [urlparse] and [validate_url], run. *)
Example urlparse_series :
  urlparse "https://www.mangareader.net/shingeki-no-kyojin"
  = mkParse "https" "www.mangareader.net" "/shingeki-no-kyojin".
Proof. reflexivity. Qed.

Example urlparse_query_fragment :
  urlparse "http://www.mangareader.net/a/b;c?x#y"
  = mkParse "http" "www.mangareader.net" "/a/b".
Proof. reflexivity. Qed.

Example urlparse_no_scheme :
  urlparse "www.mangareader.net/a" = mkParse "" "" "www.mangareader.net/a".
Proof. reflexivity. Qed.

Example validate_series :
  validate_url "https://www.mangareader.net/shingeki-no-kyojin" = true.
Proof. reflexivity. Qed.

Example validate_other_site : validate_url "http://www.example.org/naruto" = false.
Proof. reflexivity. Qed.

Example validate_no_path : validate_url "http://www.mangareader.net" = false.
Proof. reflexivity. Qed.

Example validate_chapter : validate_url "http://www.mangareader.net/naruto/1" = false.
Proof. reflexivity. Qed.

End ValidationFacts.

(** ** The monad *)

Module MonadFacts.

Lemma bind_ok {S A B} (m : M S A) (k : A -> M S B) s a s' :
  m s = (Ok a, s') -> bind m k s = k a s'.
Proof. unfold bind. now intros ->. Qed.

Lemma bind_raise {S A B} (m : M S A) (k : A -> M S B) s e s' :
  m s = (Raise e, s') -> bind m k s = (Raise e, s').
Proof. unfold bind. now intros ->. Qed.

(** A bind returns only if both of its parts do. *)
Lemma bind_inv_ok {S A B} (m : M S A) (k : A -> M S B) s b s2 :
  bind m k s = (Ok b, s2) ->
  exists a s1, m s = (Ok a, s1) /\ k a s1 = (Ok b, s2).
Proof.
  unfold bind. destruct (m s) as [[a|e] s1]; intros H.
  - now exists a, s1.
  - discriminate.
Qed.

(** A bind raises when its first part does, or its second after the first
    returned. *)
Lemma bind_inv_raise {S A B} (m : M S A) (k : A -> M S B) s e s2 :
  bind m k s = (Raise e, s2) ->
  m s = (Raise e, s2) \/ exists a s1, m s = (Ok a, s1) /\ k a s1 = (Raise e, s2).
Proof.
  unfold bind. destruct (m s) as [[a|e'] s1]; intros H.
  - right. now exists a, s1.
  - left. now injection H as -> ->.
Qed.

(** A loop whose body keeps an invariant and raises only exceptions of a
    given kind does the same. *)
Lemma for_each_invariant {S A} (I : S -> Prop) (E : exn -> Prop)
    (xs : list A) (body : A -> M S unit) :
  (forall x s, In x xs -> I s ->
     I (snd (body x s)) /\ forall e, fst (body x s) = Raise e -> E e) ->
  forall s, I s ->
    I (snd (for_each xs body s)) /\ forall e, fst (for_each xs body s) = Raise e -> E e.
Proof.
  induction xs as [|x xs IH]; intros Hb s Hs.
  - simpl. split; [exact Hs|discriminate].
  - simpl. unfold bind.
    destruct (Hb x s (or_introl eq_refl) Hs) as [H1 H2].
    destruct (body x s) as [[[]|e] s1]; simpl in *.
    + apply IH; [|exact H1]. intros y s' Hy. apply Hb. now right.
    + split; [exact H1|]. intros e' [= <-]. now apply H2.
Qed.

End MonadFacts.

(** ** The constructor *)

Module ConstructorFacts.
Import PyStr Url Validation Fs Crawler Scenario MonadFacts.

Lemma init_retry_count_pos r : 0 < init_retry_count r.
Proof. unfold init_retry_count. destruct (Z.gtb_spec r 0); lia. Qed.

Lemma init_wait_time_pos t : 0 < init_wait_time t.
Proof. unfold init_wait_time. destruct (Z.gtb_spec t 0); lia. Qed.

Lemma init_retry_after_pos t : 0 < init_retry_after t.
Proof. unfold init_retry_after. destruct (Z.gtb_spec t 0); lia. Qed.

(** The attributes of the object the constructor returns. *)
Lemma init_returns manga_url target_dir wait_time time_out retries retry_after p o p' :
  __init__ manga_url target_dir wait_time time_out retries retry_after p = (Ok o, p') ->
  o = mkReader (strip "/" manga_url) target_dir
        (strip "/" (path (urlparse (strip "/" manga_url))))
        time_out (init_retry_count retries) [] (cwd p') 0 0
        (init_wait_time wait_time) (init_retry_after retry_after)
        (clock p' + init_wait_time wait_time)
  /\ validate_url (strip "/" manga_url) = true.
Proof.
  unfold __init__. intros H.
  apply bind_inv_ok in H as (? & p1 & _ & H).
  apply bind_inv_ok in H as (? & p2 & _ & H).
  destruct (validate_url (strip "/" manga_url)); simpl in H; [|discriminate].
  unfold bind, gets, time, ret in H. injection H as <- <-. now split.
Qed.

(** C10.  Whenever the constructor returns an object, a non-positive
    [retries], [wait_time] or [retry_after] has been replaced by its default
    (3, 5, 10), a positive one has been kept, and so the retry count, the
    wait interval and the retry delay of the object are strictly
    positive. *)
Theorem init_defaults manga_url target_dir wait_time time_out retries retry_after p o p' :
  __init__ manga_url target_dir wait_time time_out retries retry_after p = (Ok o, p') ->
  (retries <= 0 -> _retry_count o = 3)
  /\ (wait_time <= 0 -> _wait_time o = 5)
  /\ (retry_after <= 0 -> _retry_after o = 10)
  /\ (0 < retries -> _retry_count o = retries)
  /\ (0 < wait_time -> _wait_time o = wait_time)
  /\ (0 < retry_after -> _retry_after o = retry_after)
  /\ 0 < _retry_count o /\ 0 < _wait_time o /\ 0 < _retry_after o.
Proof.
  intros H. apply init_returns in H as [-> _]. simpl.
  unfold init_retry_count, init_wait_time, init_retry_after.
  destruct (Z.gtb_spec retries 0), (Z.gtb_spec wait_time 0), (Z.gtb_spec retry_after 0);
    repeat split; intros; lia.
Qed.

Lemma init_defaults_witness :
  __init__ "http://www.mangareader.net/naruto/" "." 0 10 (-1) 0 process0
  = (Ok (reader "." []), process0)
  /\ _retry_count (reader "." []) = 3
  /\ _wait_time (reader "." []) = 5
  /\ _retry_after (reader "." []) = 10.
Proof.
  assert (H : __init__ "http://www.mangareader.net/naruto/" "." 0 10 (-1) 0 process0
              = (Ok (reader "." []), process0)) by reflexivity.
  split; [exact H|].
  destruct (init_defaults _ _ _ _ _ _ _ _ _ H) as (H1 & H2 & H3 & _).
  split; [apply H1; lia | split; [apply H2; lia | apply H3; lia]].
Defined.

End ConstructorFacts.

(** ** The fetcher: one attempt *)

Module FetcherFacts.
Import PyStr Url Validation Fs Crawler Scenario Props MonadFacts.

Section Fetcher.

Variable w : world.

(** The loop on the clock is left at a reading that is neither before the
    reading it started from nor before the deadline. *)
Lemma spin_reaches turns : forall deadline t,
  (Z.to_nat (deadline - t) <= turns)%nat ->
  t <= spin w turns deadline t /\ deadline <= spin w turns deadline t.
Proof.
  induction turns as [|n IH]; intros deadline t H; simpl.
  - lia.
  - destruct (Z.ltb_spec t deadline) as [L|L]; [|lia].
    pose proof (N2Z.is_nonneg (tick w t)) as Ht.
    destruct (IH deadline (next_reading w t)) as [A B];
      unfold next_reading in *; lia.
Qed.

Lemma request_start_waits s :
  Z.max (clock (proc s)) (_next_request_time (self s)) <= request_start w s.
Proof.
  unfold request_start.
  pose proof (N2Z.is_nonneg (overshoot w (opens (proc s)))) as Hov.
  destruct (spin_reaches (Z.to_nat (_next_request_time (self s) - clock (proc s)))
              (_next_request_time (self s)) (clock (proc s))); lia.
Qed.

(** An attempt that gets a response. *)
Lemma attempt_response url s code body :
  transport w (opens (proc s)) url = Response code body ->
  attempt w url s =
  (Ok (code =? 200, Some body),
   mkState
     (set_next_request_time (request_end w s + _wait_time (self s))
        (set_total_req_count (_total_req_count (self s) + 1)
           (if code =? 200
            then set_total_bytes
                   (_total_bytes (self s) + Z.of_nat (String.length body)) (self s)
            else self s)))
     (mkProcess (request_end w s) (cwd (proc s)) (dirs (proc s)) (files (proc s))
        (S (opens (proc s)))
        (Completed (request_end w s)
           :: Request (request_start w s) (_next_request_time (self s)) :: trace (proc s)))).
Proof.
  intros T. unfold attempt, catch, request, bind, busy_wait, modify, opener_open.
  simpl. rewrite T. unfold request_end, request_start.
  destruct (code =? 200); reflexivity.
Qed.

(** An attempt whose request raises. *)
Lemma attempt_raises url s e :
  transport w (opens (proc s)) url = Raises e ->
  attempt w url s =
  (Ok (false, None),
   mkState (self s)
     (mkProcess (request_end w s) (cwd (proc s)) (dirs (proc s)) (files (proc s))
        (S (opens (proc s)))
        (Failed (request_end w s)
           :: Request (request_start w s) (_next_request_time (self s)) :: trace (proc s)))).
Proof.
  intros T. unfold attempt, catch, request, bind, busy_wait, modify, opener_open.
  simpl. rewrite T. reflexivity.
Qed.

(** No exception leaves an attempt, and its result is read off the
    outcome of the request. *)
Lemma attempt_result url s :
  fst (attempt w url s)
  = Ok (negb (fails (transport w (opens (proc s)) url)),
        body_of (transport w (opens (proc s)) url)).
Proof.
  destruct (transport w (opens (proc s)) url) as [code body|e] eqn:T.
  - rewrite (attempt_response _ _ _ _ T). simpl. now rewrite negb_involutive.
  - rewrite (attempt_raises _ _ _ T). reflexivity.
Qed.

(** An attempt is one call of the opener. *)
Lemma attempt_opens url s :
  opens (proc (snd (attempt w url s))) = S (opens (proc s)).
Proof.
  destruct (transport w (opens (proc s)) url) as [code body|e] eqn:T.
  - now rewrite (attempt_response _ _ _ _ T).
  - now rewrite (attempt_raises _ _ _ T).
Qed.

Lemma fetch_frame_refl s : fetch_frame s s.
Proof. unfold fetch_frame, same_config. tauto. Qed.

Lemma fetch_frame_trans s1 s2 s3 :
  fetch_frame s1 s2 -> fetch_frame s2 s3 -> fetch_frame s1 s3.
Proof.
  unfold fetch_frame, same_config.
  intros ((?&?&?&?&?&?&?&?)&?&?&?&?) ((?&?&?&?&?&?&?&?)&?&?&?&?).
  repeat split; congruence.
Qed.

Lemma attempt_frame url s : fetch_frame s (snd (attempt w url s)).
Proof.
  destruct (transport w (opens (proc s)) url) as [code body|e] eqn:T.
  - rewrite (attempt_response _ _ _ _ T).
    unfold fetch_frame, same_config. destruct (code =? 200); simpl; tauto.
  - rewrite (attempt_raises _ _ _ T).
    unfold fetch_frame, same_config. simpl. tauto.
Qed.

Lemma in_completed_request c t a tr :
  In (Completed c) (Request t a :: tr) -> In (Completed c) tr.
Proof. intros [H|H]; [discriminate|exact H]. Qed.

Lemma in_completed_failed c t tr :
  In (Completed c) (Failed t :: tr) -> In (Completed c) tr.
Proof. intros [H|H]; [discriminate|exact H]. Qed.

(** An attempt keeps the trace paced: its request starts when the loop on
    the clock is left, hence not before the next-allowed time; and when it
    completes, the next-allowed time becomes the completion time plus the
    wait interval. *)
Lemma attempt_paced url s :
  pacing_invariant s -> pacing_invariant (snd (attempt w url s)).
Proof.
  intros (P1 & P2 & P3).
  pose proof (request_start_waits s) as Hst.
  pose proof (N2Z.is_nonneg (latency w (opens (proc s)))) as Hlat.
  assert (Hreq : paced (_wait_time (self s))
                   (Request (request_start w s) (_next_request_time (self s))
                      :: trace (proc s))).
  { simpl. repeat split; auto.
    - lia.
    - intros c Hc. specialize (P3 c Hc). lia. }
  destruct (transport w (opens (proc s)) url) as [code body|e] eqn:T.
  - rewrite (attempt_response _ _ _ _ T). unfold pacing_invariant.
    assert (HW : _wait_time
                   (set_next_request_time (request_end w s + _wait_time (self s))
                      (set_total_req_count (_total_req_count (self s) + 1)
                         (if code =? 200
                          then set_total_bytes
                                 (_total_bytes (self s) + Z.of_nat (String.length body))
                                 (self s)
                          else self s)))
                 = _wait_time (self s)) by (destruct (code =? 200); reflexivity).
    cbn [self proc trace clock snd]. rewrite HW.
    cbn [_next_request_time set_next_request_time].
    split; [exact Hreq|]. split.
    + simpl. intros c [= <-]. reflexivity.
    + intros c [[= <-]|Hc]; [lia|].
      apply in_completed_request in Hc. specialize (P3 c Hc).
      unfold request_end. lia.
  - rewrite (attempt_raises _ _ _ T). unfold pacing_invariant.
    cbn [self proc trace clock snd].
    split; [exact Hreq|]. split.
    + simpl. exact P2.
    + intros c Hc. apply in_completed_failed, in_completed_request in Hc.
      specialize (P3 c Hc). unfold request_end. lia.
Qed.

(** ** The fetcher: retries *)

(** [get_page_source], unfolded once. *)
Lemma get_page_source_n_eq url n s :
  get_page_source_n w url n s =
  match attempt w url s with
  | (Ok (status, page_src), s1) =>
      if status then (Ok (status, page_src), s1)
      else match n with
           | S n' =>
               if _retry_after (self s1) <? 0 then (Raise ValueError, s1)
               else get_page_source_n w url n' (slept (_retry_after (self s1)) s1)
           | O => (Ok (status, page_src), s1)
           end
  | (Raise e, s1) => (Raise e, s1)
  end.
Proof.
  destruct n; simpl; unfold bind;
    destruct (attempt w url s) as [[[[] page_src]|e] s1]; simpl; try reflexivity.
  unfold gets, os, sleep. simpl.
  destruct (_retry_after (self s1) <? 0); simpl; [|reflexivity].
  destruct s1; reflexivity.
Qed.

(** Whatever an attempt and a sleep keep, [get_page_source] keeps. *)
Lemma get_page_source_n_keeps (I : state -> Prop) url :
  (forall s, I s -> I (snd (attempt w url s))) ->
  (forall s t, I s -> 0 <= t -> I (slept t s)) ->
  forall n s, I s -> I (snd (get_page_source_n w url n s)).
Proof.
  intros Ha Hs. induction n as [|n IH]; intros s HI;
    rewrite get_page_source_n_eq; specialize (Ha s HI);
    destruct (attempt w url s) as [[[[] page_src]|e] s1]; simpl in *; auto.
  destruct (Z.ltb_spec (_retry_after (self s1)) 0); simpl; auto.
Qed.

Lemma get_page_source_n_frame url n s :
  fetch_frame s (snd (get_page_source_n w url n s)).
Proof.
  apply (get_page_source_n_keeps (fetch_frame s)).
  - intros s1 H. eapply fetch_frame_trans; [exact H|apply attempt_frame].
  - intros s1 t H _. eapply fetch_frame_trans; [exact H|].
    unfold fetch_frame, same_config. simpl. tauto.
  - apply fetch_frame_refl.
Qed.

Lemma get_page_source_n_paced url n s :
  pacing_invariant s -> pacing_invariant (snd (get_page_source_n w url n s)).
Proof.
  apply (get_page_source_n_keeps pacing_invariant).
  - intros s1. apply attempt_paced.
  - intros s1 t (P1 & P2 & P3) Ht. unfold pacing_invariant. simpl.
    repeat split; auto. intros c Hc. specialize (P3 c Hc). lia.
Qed.

(** [get_page_source] returns: with a retry delay that is not negative, as
    the constructor leaves it, nothing in it raises. *)
Lemma get_page_source_n_returns url n s :
  0 <= _retry_after (self s) ->
  exists r s', get_page_source_n w url n s = (Ok r, s').
Proof.
  revert s. induction n as [|n IH]; intros s Hr; rewrite get_page_source_n_eq;
    pose proof (attempt_result url s) as R; pose proof (attempt_frame url s) as F;
    destruct (attempt w url s) as [[[[] page_src]|e] s1]; simpl in *;
    try discriminate; eauto.
  destruct F as ((_&_&_&_&_&_&_&F)&_).
  destruct (Z.ltb_spec (_retry_after (self s1)) 0); [lia|].
  apply IH. simpl. lia.
Qed.

(** When every attempt fails, all retries are used: with [n] retries left
    the opener is called [n + 1] times, and the result is [False] with
    whatever the last attempt left in [page_src]. *)
Lemma get_page_source_n_exhausted url n : forall s,
  0 <= _retry_after (self s) ->
  (forall i, (opens (proc s) <= i <= opens (proc s) + n)%nat ->
             fails (transport w i url) = true) ->
  exists s',
    get_page_source_n w url n s
    = (Ok (false, body_of (transport w (opens (proc s) + n) url)), s')
    /\ opens (proc s') = (opens (proc s) + S n)%nat.
Proof.
  induction n as [|n IH]; intros s Hr Hf; rewrite get_page_source_n_eq;
    pose proof (attempt_result url s) as R; pose proof (attempt_frame url s) as F;
    pose proof (attempt_opens url s) as O;
    rewrite (Hf (opens (proc s))) in R by lia;
    destruct (attempt w url s) as [[[st page_src]|e] s1]; simpl in *;
    try discriminate; injection R as -> ->.
  - exists s1. rewrite Nat.add_0_r. split; [reflexivity|lia].
  - destruct F as ((_&_&_&_&_&_&_&F)&_).
    destruct (Z.ltb_spec (_retry_after (self s1)) 0); [lia|].
    destruct (IH (slept (_retry_after (self s1)) s1)) as (s' & E & O').
    + simpl. lia.
    + simpl. intros i Hi. apply Hf. lia.
    + exists s'. simpl in E, O'. rewrite E, O', O.
      replace (S (opens (proc s)) + n)%nat with (opens (proc s) + S n)%nat by lia.
      split; [reflexivity|lia].
Qed.

End Fetcher.

End FetcherFacts.

(** ** The fetcher: pacing and retry exhaustion *)

Module FetcherClaims.
Import PyStr Url Validation Fs Crawler Scenario Props MonadFacts FetcherFacts.

Lemma paced_app W later tr : paced W (later ++ tr)%list -> paced W tr.
Proof.
  induction later as [|[t a|c|t] later IH]; simpl; auto.
  intros (_ & _ & _ & H). auto.
Qed.






(** The trace of a discovery on a healthy site, latest event first: each
    request waits for the interval to pass after the one before it. *)
Example paced_run :
  trace (proc (snd (get_chapter_list (site_world healthy_site) 3
                      (mkState (reader "." []) process0))))
  = [Completed 21; Request 19 19; Completed 14; Request 12 12;
     Completed 7; Request 5 5].
Proof. reflexivity. Qed.

End FetcherClaims.

(** ** The chapter index *)

Module DictFacts.
Import Dict.

Lemma get_set_same d k v : get (set d k v) k = Some v.
Proof.
  induction d as [|[k' v'] d IH]; simpl.
  - now rewrite Z.eqb_refl.
  - destruct (k' =? k) eqn:E; simpl; now rewrite E.
Qed.

Lemma get_set_other d k k' v : k' <> k -> get (set d k' v) k = get d k.
Proof.
  intros N. induction d as [|[k0 v0] d IH]; simpl.
  - destruct (Z.eqb_spec k' k); [contradiction|reflexivity].
  - destruct (Z.eqb_spec k0 k'); simpl.
    + subst. destruct (Z.eqb_spec k' k); [contradiction|reflexivity].
    + destruct (k0 =? k); [reflexivity|exact IH].
Qed.

(** Assigning an item changes no key that is there, and moves none. *)
Lemma keys_set_in d k v : In k (keys d) -> keys (set d k v) = keys d.
Proof.
  induction d as [|[k' v'] d IH]; simpl; [contradiction|].
  intros H. destruct (Z.eqb_spec k' k); [reflexivity|].
  simpl. f_equal. apply IH. destruct H; [contradiction|assumption].
Qed.

(** A new key goes to the end. *)
Lemma keys_set_new d k v : ~ In k (keys d) -> keys (set d k v) = (keys d ++ [k])%list.
Proof.
  induction d as [|[k' v'] d IH]; simpl; [reflexivity|].
  intros H. destruct (Z.eqb_spec k' k); [subst; tauto|].
  simpl. f_equal. apply IH. tauto.
Qed.

Lemma keys_set_keeps d k k' v : In k (keys d) -> In k (keys (set d k' v)).
Proof.
  destruct (in_dec Z.eq_dec k' (keys d)) as [H|H]; intros Hk.
  - now rewrite keys_set_in.
  - rewrite keys_set_new by assumption. apply in_or_app. now left.
Qed.

Lemma get_none d k : ~ In k (keys d) -> get d k = None.
Proof.
  induction d as [|[k' v'] d IH]; simpl; [reflexivity|].
  intros H. destruct (Z.eqb_spec k' k); [subst; tauto|]. apply IH. tauto.
Qed.

(** [update]: no key of the old index is lost. *)
Lemma update_keeps_keys new : forall old k,
  In k (keys old) -> In k (keys (update old new)).
Proof.
  unfold update. induction new as [|[k' v'] new IH]; intros old k H; simpl; [exact H|].
  apply IH. now apply keys_set_keeps.
Qed.

(** [update]: a key the new index does not have keeps its old value. *)
Lemma update_get_old new : forall old k,
  ~ In k (keys new) -> get (update old new) k = get old k.
Proof.
  unfold update. induction new as [|[k' v'] new IH]; intros old k H; simpl; [reflexivity|].
  simpl in H. rewrite IH by tauto. apply get_set_other. tauto.
Qed.

(** [update]: a key of the new index takes the new value. *)
Lemma update_get_new new : forall old k v,
  NoDup (keys new) -> get new k = Some v -> get (update old new) k = Some v.
Proof.
  induction new as [|[k' v'] new IH]; intros old k v N H; simpl in *; [discriminate|].
  inversion N as [|? ? Hn N']; subst.
  destruct (Z.eqb_spec k' k).
  - subst. injection H as ->.
    change (get (update (set old k v) new) k = Some v).
    rewrite update_get_old by assumption. apply get_set_same.
  - change (get (update (set old k' v') new) k = Some v). now apply IH.
Qed.

End DictFacts.

(** ** Files and directories *)

Module FsFacts.
Import PyStr Fs Props.

Lemma abspath_eqb_refl a : abspath_eqb a a = true.
Proof. unfold abspath_eqb. destruct (list_eq_dec string_dec a a); congruence. Qed.

Lemma abspath_eqb_eq a b : abspath_eqb a b = true -> a = b.
Proof. unfold abspath_eqb. destruct (list_eq_dec string_dec a b); congruence. Qed.

Lemma lookup_store_same fs a c : lookup (store fs a c) a = Some c.
Proof.
  induction fs as [|[a' c'] fs IH]; simpl.
  - now rewrite abspath_eqb_refl.
  - destruct (abspath_eqb a' a) eqn:E; simpl; now rewrite E.
Qed.

Lemma nonempty_app_r a c b : nonempty (a ++ String c b) = true.
Proof. destruct a; reflexivity. Qed.

Lemma quiet_path_exists name : quiet (path_exists name).
Proof. intros p. now cbv. Qed.

Lemma quiet_path_isdir name : quiet (path_isdir name).
Proof. intros p. now cbv. Qed.

Lemma quiet_mkdir name : quiet (mkdir name).
Proof.
  intros p. unfold mkdir.
  destruct (negb (nonempty name)); [now simpl|].
  destruct (is_dir p _ || is_file p _)%bool; [now simpl|].
  destruct (negb (is_dir p _)); now simpl.
Qed.

Lemma quiet_chdir name : quiet (chdir name).
Proof.
  intros p. unfold chdir.
  destruct (negb (nonempty name)); [now simpl|].
  destruct (is_dir p _); [now simpl|].
  destruct (is_file p _); now simpl.
Qed.

Lemma quiet_write_file name c : quiet (write_file name c).
Proof.
  intros p. unfold write_file.
  destruct (negb (nonempty name)); [now simpl|].
  destruct (is_dir p _); [now simpl|].
  destruct (negb (is_dir p _)); now simpl.
Qed.

Lemma quiet_load_pickle name : quiet (load_pickle name).
Proof.
  intros p. unfold load_pickle.
  destruct (negb (nonempty name)); [now simpl|].
  destruct (is_dir p _); [now simpl|].
  destruct (lookup (files p) _) as [[]|]; now simpl.
Qed.

Lemma quiet_ret {A} (a : A) : quiet (ret a).
Proof. intros p. now cbv. Qed.

Lemma quiet_raise {A} e : quiet (@raise process A e).
Proof. intros p. now cbv. Qed.

Lemma quiet_bind {A B} (m : M process A) (k : A -> M process B) :
  quiet m -> (forall a, quiet (k a)) -> quiet (bind m k).
Proof.
  intros Hm Hk p. unfold bind. specialize (Hm p).
  destruct (m p) as [[a|e] p1]; simpl in *; [|exact Hm].
  destruct (Hk a p1) as (?&?&?). destruct Hm as (?&?&?).
  repeat split; congruence.
Qed.

Lemma quiet_for_each {A} (xs : list A) (body : A -> M process unit) :
  (forall x, quiet (body x)) -> quiet (for_each xs body).
Proof.
  intros H. induction xs as [|x xs IH]; simpl.
  - apply quiet_ret.
  - apply quiet_bind; auto.
Qed.

(** The exceptions of the file operations are operating-system errors. *)
Lemma mkdir_raises name p e : fst (mkdir name p) = Raise e -> os_error e.
Proof.
  unfold mkdir, os_error.
  destruct (negb (nonempty name)); [simpl; intros [= <-]; tauto|].
  destruct (is_dir p _ || is_file p _)%bool; [simpl; intros [= <-]; tauto|].
  destruct (negb (is_dir p _)); simpl; [intros [= <-]; tauto|discriminate].
Qed.

Lemma chdir_raises name p e : fst (chdir name p) = Raise e -> os_error e.
Proof.
  unfold chdir, os_error.
  destruct (negb (nonempty name)); [simpl; intros [= <-]; tauto|].
  destruct (is_dir p _); [discriminate|].
  destruct (is_file p _); simpl; intros [= <-]; tauto.
Qed.

Lemma write_file_raises name c p e :
  fst (write_file name c p) = Raise e -> os_error e.
Proof.
  unfold write_file, os_error.
  destruct (negb (nonempty name)); [simpl; intros [= <-]; tauto|].
  destruct (is_dir p _); [simpl; intros [= <-]; tauto|].
  destruct (negb (is_dir p _)); simpl; [intros [= <-]; tauto|discriminate].
Qed.

End FsFacts.

(** ** The progress store *)

Module StoreClaims.
Import PyStr Url Validation Fs Crawler Scenario Props MonadFacts DictFacts FsFacts.

(** Saving where no index file exists writes the index as it is. *)
Lemma save_first (s : state) :
  is_dir (proc s) (data_path s) = false ->
  lookup (files (proc s)) (data_path s) = None ->
  is_dir (proc s) (removelast (data_path s)) = true ->
  save_chapter_list s
  = (Ok tt, mkState (self s)
              (set_files (store (files (proc s)) (data_path s)
                            (Pickled (_available_chapters (self s)))) (proc s))).
Proof.
  unfold data_path, data_file. intros D F P.
  unfold save_chapter_list, bind, gets, os, path_exists, write_file, is_file, data_file.
  repeat (simpl; rewrite ?nonempty_app_r, ?D, ?F, ?P, ?orb_true_r). reflexivity.
Qed.

(** Saving over an index file writes the old index updated by the new. *)
Lemma save_again (s : state) old :
  is_dir (proc s) (data_path s) = false ->
  lookup (files (proc s)) (data_path s) = Some (Pickled old) ->
  is_dir (proc s) (removelast (data_path s)) = true ->
  save_chapter_list s
  = (Ok tt, mkState (self s)
              (set_files (store (files (proc s)) (data_path s)
                            (Pickled (Dict.update old (_available_chapters (self s)))))
                 (proc s))).
Proof.
  unfold data_path, data_file. intros D F P.
  unfold save_chapter_list, bind, gets, os, path_exists, load_pickle, write_file,
    is_file, data_file.
  repeat (simpl; rewrite ?nonempty_app_r, ?D, ?F, ?P, ?orb_true_r). reflexivity.
Qed.

(** Loading an index file makes its content the index of the object. *)
Lemma load_saved (s : state) d :
  is_dir (proc s) (data_path s) = false ->
  lookup (files (proc s)) (data_path s) = Some (Pickled d) ->
  load_chapter_list s
  = (Ok true, mkState (set_available_chapters d (self s)) (proc s)).
Proof.
  unfold data_path, data_file. intros D F.
  unfold load_chapter_list, bind, gets, os, path_exists, load_pickle, is_file, data_file,
    on_self, modify, ret.
  repeat (simpl; rewrite ?nonempty_app_r, ?D, ?F, ?orb_true_r). reflexivity.
Qed.

(** Whatever index has been saved before, a save followed by a load
    yields that index updated by the new one. *)
Lemma save_then_load (s : state) old :
  is_dir (proc s) (data_path s) = false ->
  lookup (files (proc s)) (data_path s) = Some (Pickled old) ->
  is_dir (proc s) (removelast (data_path s)) = true ->
  exists s',
    bind save_chapter_list (fun _ => load_chapter_list) s = (Ok true, s')
    /\ _available_chapters (self s')
       = Dict.update old (_available_chapters (self s)).
Proof.
  intros D F P. rewrite (bind_ok _ _ _ _ _ (save_again s old D F P)).
  set (s1 := mkState (self s) _).
  assert (D1 : is_dir (proc s1) (data_path s1) = false) by exact D.
  assert (F1 : lookup (files (proc s1)) (data_path s1)
               = Some (Pickled (Dict.update old (_available_chapters (self s)))))
    by apply lookup_store_same.
  rewrite (load_saved s1 _ D1 F1). eexists. split; reflexivity.
Qed.

(** C6.  Where no index file exists yet, saving the index [d1], then
    saving [d2] under the same key, then loading yields [d1] updated by
    [d2]: no key of [d1] is lost, a key missing from [d2] keeps its value,
    a key of [d2] takes the value of [d2].  For [{1: (urlA, 5)}] and
    [{2: (urlB, 3)}] that is exactly [{1: (urlA, 5), 2: (urlB, 3)}]. *)
Theorem index_merge (s : state) (d1 d2 : Dict.dict) :
  is_dir (proc s) (data_path s) = false ->
  lookup (files (proc s)) (data_path s) = None ->
  is_dir (proc s) (removelast (data_path s)) = true ->
  (exists s', save_save_load d1 d2 s = (Ok true, s')
              /\ _available_chapters (self s') = Dict.update d1 d2)
  /\ (forall k, In k (Dict.keys d1) -> In k (Dict.keys (Dict.update d1 d2)))
  /\ (forall k, ~ In k (Dict.keys d2) ->
                Dict.get (Dict.update d1 d2) k = Dict.get d1 k)
  /\ (forall k v, NoDup (Dict.keys d2) -> Dict.get d2 k = Some v ->
                  Dict.get (Dict.update d1 d2) k = Some v)
  /\ (forall urlA urlB,
        Dict.update [(1, (urlA, 5))] [(2, (urlB, 3))]
        = [(1, (urlA, 5)); (2, (urlB, 3))]).
Proof.
  intros D F P. split; [|split; [|split; [|split]]].
  - unfold save_save_load.
    set (s1 := mkState (set_available_chapters d1 (self s)) (proc s)).
    assert (E1 : on_self (set_available_chapters d1) s = (Ok tt, s1)) by reflexivity.
    rewrite (bind_ok _ _ _ _ _ E1).
    assert (A1 : data_path s1 = data_path s) by reflexivity.
    rewrite (bind_ok _ _ _ _ _ (save_first s1 D F P)).
    set (s2 := mkState (self s1) _).
    set (s3 := mkState (set_available_chapters d2 (self s2)) (proc s2)).
    assert (E3 : on_self (set_available_chapters d2) s2 = (Ok tt, s3)) by reflexivity.
    rewrite (bind_ok _ _ _ _ _ E3).
    assert (D3 : is_dir (proc s3) (data_path s3) = false) by exact D.
    assert (P3 : is_dir (proc s3) (removelast (data_path s3)) = true) by exact P.
    assert (F3 : lookup (files (proc s3)) (data_path s3) = Some (Pickled d1))
      by apply lookup_store_same.
    rewrite (bind_ok _ _ _ _ _ (save_again s3 d1 D3 F3 P3)).
    set (s4 := mkState (self s3) _).
    assert (D4 : is_dir (proc s4) (data_path s4) = false) by exact D.
    assert (F4 : lookup (files (proc s4)) (data_path s4)
                 = Some (Pickled (Dict.update d1 d2))) by apply lookup_store_same.
    rewrite (load_saved s4 _ D4 F4). eexists. split; reflexivity.
  - intros k. apply update_keeps_keys.
  - intros k. apply update_get_old.
  - intros k v. apply update_get_new.
  - reflexivity.
Qed.

Lemma index_merge_witness :
  is_dir process0 (data_path (mkState (reader "." []) process0)) = false
  /\ lookup (files process0) (data_path (mkState (reader "." []) process0)) = None
  /\ is_dir process0 (removelast (data_path (mkState (reader "." []) process0))) = true
  /\ exists s',
       save_save_load [(1, ("urlA", 5))] [(2, ("urlB", 3))]
         (mkState (reader "." []) process0) = (Ok true, s')
       /\ _available_chapters (self s')
          = Dict.update [(1, ("urlA", 5))] [(2, ("urlB", 3))].
Proof.
  split; [reflexivity|]. split; [reflexivity|]. split; [reflexivity|].
  exact (proj1 (index_merge (mkState (reader "." []) process0)
                  [(1, ("urlA", 5))] [(2, ("urlB", 3))] eq_refl eq_refl eq_refl)).
Defined.

(** The same, run: the file written and the index loaded. *)
Example index_merge_run :
  let s' := snd (save_save_load [(1, ("urlA", 5))] [(2, ("urlB", 3))]
                   (mkState (reader "." []) process0)) in
  _available_chapters (self s') = [(1, ("urlA", 5)); (2, ("urlB", 3))]
  /\ files (proc s')
     = [(["home"; "manga"; "naruto.pkl"],
         Pickled [(1, ("urlA", 5)); (2, ("urlB", 3))])].
Proof. split; reflexivity. Qed.

End StoreClaims.

(** ** Chapter and page download *)

Module DownloadClaims.
Import PyStr Url Validation Fs Crawler Scenario Props MonadFacts DictFacts FsFacts
  FetcherFacts.

Lemma in_range lo hi x : In x (range lo hi) -> lo <= x < hi.
Proof.
  unfold range. intros H. apply in_map_iff in H as (i & <- & H).
  apply in_seq in H. lia.
Qed.

(** A loop whose body changes nothing changes nothing. *)
Lemma for_each_skip {S A} (xs : list A) (body : A -> M S unit) s :
  (forall x, In x xs -> body x s = (Ok tt, s)) -> for_each xs body s = (Ok tt, s).
Proof.
  induction xs as [|x xs IH]; intros H; simpl; [reflexivity|].
  unfold bind. rewrite (H x (or_introl eq_refl)).
  apply IH. intros y Hy. apply H. now right.
Qed.

(** The boundary test of [get_chapter_page], [0 >= page_num >
    chapter_pages_count], asks for both comparisons at once: with a page
    count that is not negative it never holds. *)
Lemma boundary_test_never_holds page_num count :
  0 <= count -> ((0 >=? page_num) && (page_num >? count))%bool = false.
Proof.
  intros H. destruct (Z.geb_spec 0 page_num), (Z.gtb_spec page_num count);
    simpl; auto; lia.
Qed.

(** Every page number in [1 .. page_count] passes the boundary test. *)
Lemma boundary_test_passes_range page_num count :
  1 <= page_num <= count -> ((0 >=? page_num) && (page_num >? count))%bool = false.
Proof. intros H. apply boundary_test_never_holds. lia. Qed.

(** C2.  The boundary test lets the page numbers outside [1 ..
    page_count] through: for chapter 1 of 5 pages, page 0 is requested (at
    [<chapter url>/0]) and its image saved, and page 6 is requested too,
    through every retry. *)
Theorem get_chapter_page_requests_page_zero :
  let s := mkState (reader "." [(1, (chapter1_url, 5))]) process0 in
  let s0 := snd (get_chapter_page (site_world healthy_site) 1 0 3 s) in
  let s6 := snd (get_chapter_page (site_world healthy_site) 1 6 3 s) in
  opens (proc s) = 0%nat
  /\ opens (proc s0) = 2%nat
  /\ files (proc s0) = [(["home"; "manga"; "001-0.jpeg"], Bytes "JPEG")]
  /\ opens (proc s6) = 16%nat.
Proof. repeat split; reflexivity. Qed.

Lemma checked_image_name_nonempty chapter_num page :
  nonempty (checked_image_name chapter_num page) = true.
Proof. unfold checked_image_name. now destruct (str chapter_num). Qed.

(** When every page of a chapter has its file, under the name
    [get_chapter] looks for, in the directory of the chapter,
    [get_chapter] changes nothing but the working directory: it fetches
    nothing and writes nothing. *)
Lemma get_chapter_skips_present_pages w chapter_num s url count :
  Dict.get (_available_chapters (self s)) chapter_num = Some (url, count) ->
  nonempty url = true ->
  is_dir (proc s) (resolve (cwd (proc s)) (chapter_dir_name chapter_num)) = true ->
  (forall page, 1 <= page <= count ->
     is_file (proc s)
       (resolve (resolve (cwd (proc s)) (chapter_dir_name chapter_num))
          (checked_image_name chapter_num page)) = true) ->
  exists r c,
    get_chapter w chapter_num s = (r, mkState (self s) (set_cwd c (proc s))).
Proof.
  intros G U D F. unfold get_chapter, bind at 1, gets. cbn [fst snd].
  unfold chapter_entry. rewrite G. cbn [truthy]. rewrite U.
  set (dir := resolve (cwd (proc s)) (chapter_dir_name chapter_num)) in *.
  assert (E1 : os (path_exists (chapter_dir_name chapter_num)) s = (Ok true, s)).
  { unfold os, path_exists, gets. fold dir. rewrite D. destruct s. reflexivity. }
  rewrite (bind_ok _ _ _ _ _ E1). cbn [negb].
  assert (E2 : @ret state unit tt s = (Ok tt, s)) by reflexivity.
  rewrite (bind_ok _ _ _ _ _ E2).
  set (s1 := mkState (self s) (set_cwd dir (proc s))).
  assert (E3 : os (chdir (chapter_dir_name chapter_num)) s = (Ok tt, s1)).
  { unfold os, chdir. fold dir. rewrite D. reflexivity. }
  rewrite (bind_ok _ _ _ _ _ E3).
  match goal with
  | |- context [for_each ?xs ?b] =>
      assert (E4 : for_each xs b s1 = (Ok tt, s1))
  end.
  { apply for_each_skip. intros page Hp. apply in_range in Hp.
    assert (E : os (path_exists (checked_image_name chapter_num page)) s1 = (Ok true, s1)).
    { unfold os, path_exists, gets. cbn [proc s1 cwd set_cwd].
      rewrite checked_image_name_nonempty.
      unfold is_file in *. cbn [files set_cwd] in *.
      specialize (F page ltac:(lia)).
      destruct (lookup (files (proc s)) _); [|discriminate].
      rewrite orb_true_r. reflexivity. }
    rewrite (bind_ok _ _ _ _ _ E). reflexivity. }
  rewrite (bind_ok _ _ _ _ _ E4).
  unfold os, chdir.
  destruct (negb (nonempty (_target_dir (self s)))); [now exists (Raise FileNotFoundError), dir|].
  destruct (is_dir (proc s1) _); [eexists _, _; reflexivity|].
  destruct (is_file (proc s1) _); eexists _, dir; reflexivity.
Qed.

Lemma first_char_app s t c : first_char s = Some c -> first_char (s ++ t) = Some c.
Proof. destruct s; simpl; [discriminate|auto]. Qed.

Lemma starts_apart_below_100 :
  List.forallb (fun k => starts_apart (Z.of_nat k)) (seq 1 99) = true.
Proof. vm_compute. reflexivity. Qed.

(** For every chapter below 100 and every page, the name looked for and
    the name written differ: the one starts with the chapter number as it
    is, the other with a zero. *)
Lemma image_names_differ chapter_num page_num :
  1 <= chapter_num < 100 ->
  checked_image_name chapter_num page_num <> written_image_name chapter_num page_num.
Proof.
  intros H E.
  pose proof starts_apart_below_100 as A. rewrite forallb_forall in A.
  specialize (A (Z.to_nat chapter_num)). rewrite Z2Nat.id in A by lia.
  assert (Hin : In (Z.to_nat chapter_num) (seq 1 99)) by (apply in_seq; lia).
  specialize (A Hin). unfold starts_apart in A.
  destruct (first_char (str chapter_num)) as [a|] eqn:Fa; [|discriminate].
  destruct (first_char (format_0wd 3 chapter_num)) as [b|] eqn:Fb; [|discriminate].
  apply (f_equal first_char) in E.
  unfold checked_image_name, written_image_name in E.
  rewrite (first_char_app _ _ _ Fa), (first_char_app _ _ _ Fb) in E.
  injection E as ->. now rewrite Ascii.eqb_refl in A.
Qed.

(** C1.  The name [get_chapter] looks for is not the name
    [get_chapter_page] writes: for page 1 of chapter 1 the one is
    ["1-01.jpeg"], the other ["001-1.jpeg"].  So a chapter that has just
    been downloaded is downloaded again by the next call: the first call
    fetches the two pages of chapter 1 (four requests) and writes their
    files, and the second call makes four requests more. *)
Theorem downloaded_pages_are_fetched_again :
  let w := site_world healthy_site in
  let s := mkState (reader "/home/manga" [(1, (chapter1_url, 2))]) process0 in
  let s1 := snd (get_chapter w 1 s) in
  let s2 := snd (get_chapter w 1 s1) in
  let in_chapter_dir :=
    mkState (self s1) (set_cwd ["home"; "manga"; "CH-001"] (proc s1)) in
  checked_image_name 1 1 = "1-01.jpeg"
  /\ written_image_name 1 1 = "001-1.jpeg"
  /\ fst (get_chapter w 1 s) = Ok tt
  /\ files (proc s1)
     = [(["home"; "manga"; "CH-001"; "001-1.jpeg"], Bytes "JPEG");
        (["home"; "manga"; "CH-001"; "001-2.jpeg"], Bytes "JPEG")]
  /\ cwd (proc s1) = cwd (proc s)
  /\ opens (proc s1) = 4%nat
  /\ fst (os (path_exists (written_image_name 1 1)) in_chapter_dir) = Ok true
  /\ fst (os (path_exists (checked_image_name 1 1)) in_chapter_dir) = Ok false
  /\ opens (proc s2) = 8%nat.
Proof. repeat split; reflexivity. Qed.

(** With an absolute target directory, a chapter download that returns
    leaves the process in the target directory. *)
Lemma get_chapter_returns_to_absolute_target w chapter_num s s' url count :
  Dict.get (_available_chapters (self s)) chapter_num = Some (url, count) ->
  nonempty url = true ->
  isabs (_target_dir (self s)) = true ->
  get_chapter w chapter_num s = (Ok tt, s') ->
  cwd (proc s') = resolve [] (_target_dir (self s)).
Proof.
  intros G U A. unfold get_chapter, bind at 1, gets. cbn [fst snd].
  unfold chapter_entry. rewrite G. cbn [truthy]. rewrite U.
  intros H.
  apply bind_inv_ok in H as (? & ? & _ & H).
  apply bind_inv_ok in H as (? & ? & _ & H).
  apply bind_inv_ok in H as (? & ? & _ & H).
  apply bind_inv_ok in H as (? & s3 & _ & H).
  revert H. unfold os, chdir, resolve. rewrite A.
  destruct (negb (nonempty (_target_dir (self s)))); [discriminate|].
  destruct (is_dir (proc s3) _); [now intros [= <-]|].
  destruct (is_file (proc s3) _); discriminate.
Qed.

(** C8.  With the default target directory ["."] a chapter download does
    not come back: the constructor leaves the process in [/home/manga], the
    download of chapter 1 leaves it in [/home/manga/CH-001], and the crawl
    then puts the directory of chapter 2 inside that of chapter 1.  (With
    another relative target directory, such as ["dl"], the constructor
    itself fails: it enters the directory twice.) *)
Theorem get_chapter_stays_in_chapter_directory :
  let w := site_world healthy_site in
  let s := mkState (reader "." saved_index) process_saved in
  construct "http://www.mangareader.net/naruto/" "." 5 10 3 10 process_saved
  = Ok (mkState (reader "." []) process_saved)
  /\ construct "http://www.mangareader.net/naruto/" "dl" 5 10 3 10 process_saved
     = Raise FileNotFoundError
  /\ load_chapter_list (mkState (reader "." []) process_saved) = (Ok true, s)
  /\ cwd (proc s) = ["home"; "manga"]
  /\ fst (get_chapter w 1 s) = Ok tt
  /\ cwd (proc (snd (get_chapter w 1 s))) = ["home"; "manga"; "CH-001"]
  /\ fst (grab_all_chapters w (mkState (reader "." []) process_saved)) = Ok tt
  /\ dirs (proc (snd (grab_all_chapters w (mkState (reader "." []) process_saved))))
     = [["home"]; ["home"; "manga"]; ["home"; "manga"; "CH-001"];
        ["home"; "manga"; "CH-001"; "CH-002"]].
Proof. repeat split; reflexivity. Qed.

End DownloadClaims.

(** ** Specifications of the methods *)

Module SpecFacts.
Import PyStr Url Validation Fs Crawler Props MonadFacts DictFacts FsFacts FetcherFacts.

(** [get_chapter_list], unfolded once: what it does on a failure depends on
    the retries left. *)
Lemma get_chapter_list_n_eq w n :
  get_chapter_list_n w n =
  (manga_url <- gets (fun s => _manga_url (self s)) ;;
   ' (status, page_html) <- get_page_source w manga_url 3 ;;
   if status then
     html <- markup page_html ;;
     match chapterlist_hrefs w html with
     | [] => ret tt
     | chapters_links =>
         chapter_loop w
           match n with S n' => get_chapter_list_n w n' | O => ret tt end
           chapters_links 1
     end
   else match n with S n' => get_chapter_list_n w n' | O => ret tt end).
Proof. destruct n; reflexivity. Qed.

Section Rules.

Context {S : Type} (I : S -> Prop) (E : exn -> Prop).

Lemma spec_ret {A} (a : A) (Q : A -> Prop) : Q a -> spec I E (ret a) Q.
Proof. intros H s Hs. now split. Qed.

Lemma spec_raise {A} e (Q : A -> Prop) : E e -> spec I E (raise e) Q.
Proof. intros H s Hs. now split. Qed.

Lemma spec_gets {A} (f : S -> A) (Q : A -> Prop) :
  (forall s, I s -> Q (f s)) -> spec I E (gets f) Q.
Proof. intros H s Hs. split; [exact Hs|now apply H]. Qed.

Lemma spec_bind {A B} (m : M S A) (k : A -> M S B) (Q : A -> Prop) (R : B -> Prop) :
  spec I E m Q -> (forall a, Q a -> spec I E (k a) R) -> spec I E (bind m k) R.
Proof.
  intros Hm Hk s Hs. unfold bind. destruct (Hm s Hs) as [H1 H2].
  destruct (m s) as [[a|e] s1]; simpl in *.
  - now apply Hk.
  - now split.
Qed.

Lemma spec_post {A} (m : M S A) (Q Q' : A -> Prop) :
  (forall a, Q a -> Q' a) -> spec I E m Q -> spec I E m Q'.
Proof.
  intros H Hm s Hs. destruct (Hm s Hs) as [H1 H2]. split; [exact H1|].
  destruct (fst (m s)); auto.
Qed.

Lemma spec_for_each {A} (xs : list A) (body : A -> M S unit) :
  (forall x, In x xs -> spec I E (body x) (fun _ => True)) ->
  spec I E (for_each xs body) (fun _ => True).
Proof.
  induction xs as [|x xs IH]; intros H; simpl.
  - now apply spec_ret.
  - apply spec_bind with (Q := fun _ => True).
    + apply H. now left.
    + intros _ _. apply IH. intros y Hy. apply H. now right.
Qed.

End Rules.

Section Methods.

Variable w : world.
Variable I : state -> Prop.
Variable E : exn -> Prop.

(** The invariant is kept by a fetch and by the quiet operations of the
    process; and it allows the assignment of a chapter with a positive
    number. *)
Hypothesis I_fetch : forall url n s, I s -> I (snd (get_page_source_n w url n s)).
Hypothesis I_proc : forall s p,
  clock p = clock (proc s) -> opens p = opens (proc s) -> trace p = trace (proc s) ->
  I s -> I (mkState (self s) p).
Hypothesis I_assign : forall s ch_num r, 1 <= ch_num -> I s ->
  I (mkState (set_available_chapters
                (Dict.set (_available_chapters (self s)) ch_num r) (self s)) (proc s)).

(** Either the retry delay is known not to be negative, or the exception of
    a sleep of negative length is allowed for. *)
Hypothesis sleep_ok : (forall s, I s -> 0 <= _retry_after (self s)) \/ E ValueError.

Lemma get_page_source_n_body url n : forall s st body s',
  get_page_source_n w url n s = (Ok (st, body), s') ->
  st = true -> body <> None.
Proof.
  induction n as [|n IH]; intros s st body s'; rewrite get_page_source_n_eq;
    pose proof (attempt_result w url s) as R;
    destruct (attempt w url s) as [[[st1 b1]|e] s1]; simpl in *; try discriminate;
    injection R as -> ->.
  - destruct (transport w (opens (proc s)) url) as [code b|e]; simpl.
    + destruct (negb (negb (code =? 200))); intros [= <- <- <-] H; congruence.
    + intros [= <- <- <-] H. discriminate.
  - destruct (transport w (opens (proc s)) url) as [code b|e]; simpl.
    + destruct (negb (negb (code =? 200))).
      * intros [= <- <- <-] H. discriminate.
      * destruct (_retry_after (self s1) <? 0); [discriminate|]. apply IH.
    + destruct (_retry_after (self s1) <? 0); [discriminate|]. apply IH.
Qed.

Lemma get_page_source_n_raises url n : forall s e,
  fst (get_page_source_n w url n s) = Raise e ->
  e = ValueError /\ _retry_after (self s) < 0.
Proof.
  induction n as [|n IH]; intros s e; rewrite get_page_source_n_eq;
    pose proof (attempt_result w url s) as R; pose proof (attempt_frame w url s) as F;
    destruct (attempt w url s) as [[[[] b1]|e1] s1]; simpl in *; try discriminate.
  destruct F as ((_&_&_&_&_&_&_&F)&_).
  destruct (Z.ltb_spec (_retry_after (self s1)) 0).
  - simpl. intros [= <-]. split; [reflexivity|lia].
  - intros H'. apply IH in H'. simpl in H'. lia.
Qed.

(** [get_page_source] keeps the invariant and raises nothing the
    invariant does not allow for; with the status [True] comes a body. *)
Lemma get_page_source_spec url retry_count :
  spec I E (get_page_source w url retry_count)
    (fun r => fst r = true -> snd r <> None).
Proof.
  intros s Hs. unfold get_page_source. split.
  - now apply I_fetch.
  - destruct (get_page_source_n w url (Z.to_nat retry_count) s) as [[[st b]|e] s'] eqn:G;
      simpl.
    + now apply (get_page_source_n_body _ _ _ _ _ _ G).
    + pose proof (get_page_source_n_raises url (Z.to_nat retry_count) s e) as R.
      rewrite G in R. destruct (R eq_refl) as [-> Hneg].
      destruct sleep_ok as [H|H]; [specialize (H s Hs); lia|exact H].
Qed.

Lemma os_spec {A} (m : M process A) (Q : A -> Prop) :
  quiet m ->
  (forall p, match fst (m p) with Ok a => Q a | Raise e => E e end) ->
  spec I E (os m) Q.
Proof.
  intros Hq H s Hs. unfold os. specialize (H (proc s)).
  destruct (Hq (proc s)) as (Hc & Ho & Ht).
  destruct (m (proc s)) as [r p]. simpl in *. split; [now apply I_proc|exact H].
Qed.

Lemma markup_spec page_html :
  page_html <> None -> spec I E (markup page_html) (fun _ => True).
Proof.
  intros H. destruct page_html; [now apply spec_ret|congruence].
Qed.

Section Download.

Hypothesis os_error_ok : forall e, os_error e -> E e.

Lemma write_file_spec name c : spec I E (os (write_file name c)) (fun _ => True).
Proof.
  apply os_spec; [apply quiet_write_file|].
  intros p. destruct (fst (write_file name c p)) eqn:W; [exact Logic.I|].
  apply os_error_ok. now apply (write_file_raises name c p).
Qed.

Lemma chdir_spec name : spec I E (os (chdir name)) (fun _ => True).
Proof.
  apply os_spec; [apply quiet_chdir|].
  intros p. destruct (fst (chdir name p)) eqn:W; [exact Logic.I|].
  apply os_error_ok. now apply (chdir_raises name p).
Qed.

Lemma mkdir_spec name : spec I E (os (mkdir name)) (fun _ => True).
Proof.
  apply os_spec; [apply quiet_mkdir|].
  intros p. destruct (fst (mkdir name p)) eqn:W; [exact Logic.I|].
  apply os_error_ok. now apply (mkdir_raises name p).
Qed.

Lemma path_exists_spec name : spec I E (os (path_exists name)) (fun _ => True).
Proof. apply os_spec; [apply quiet_path_exists|]. intros p. exact Logic.I. Qed.

Lemma save_image_spec image_url image_name :
  spec I E (save_image w image_url image_name) (fun _ => True).
Proof.
  unfold save_image. eapply spec_bind; [apply get_page_source_spec|].
  intros [[] b] H; simpl in H.
  - destruct b; [apply write_file_spec|now destruct H].
  - now apply spec_ret.
Qed.

Lemma get_chapter_page_n_spec chapter_num page_num n :
  spec I E (get_chapter_page_n w chapter_num page_num n) (fun _ => True).
Proof.
  induction n as [|n IH]; simpl;
    (eapply spec_bind; [apply spec_gets with (Q := fun _ => True); auto|]);
    intros o _; destruct (chapter_entry o chapter_num) as [chapter_url count];
    (destruct (negb (truthy chapter_url)); [now apply spec_ret|]);
    (destruct ((0 >=? page_num) && (page_num >? count))%bool; [now apply spec_ret|]);
    (eapply spec_bind; [apply get_page_source_spec|]);
    intros [[] b] H; simpl in H; try (now apply spec_ret); try exact IH;
    (eapply spec_bind; [apply markup_spec; auto|]);
    intros html _; (destruct (img_srcs w html); [now apply spec_ret|apply save_image_spec]).
Qed.

Lemma get_chapter_spec chapter_num :
  spec I E (get_chapter w chapter_num) (fun _ => True).
Proof.
  unfold get_chapter.
  eapply spec_bind; [apply spec_gets with (Q := fun _ => True); auto|].
  intros o _. destruct (chapter_entry o chapter_num) as [chapter_url count].
  destruct (truthy chapter_url); [|now apply spec_ret].
  eapply spec_bind; [apply path_exists_spec|]. intros found _.
  eapply spec_bind with (Q := fun _ => True).
  { destruct (negb found); [apply mkdir_spec|now apply spec_ret]. }
  intros _ _. eapply spec_bind; [apply chdir_spec|]. intros _ _.
  eapply spec_bind; [|intros _ _; apply chdir_spec].
  apply spec_for_each. intros page _.
  eapply spec_bind; [apply path_exists_spec|]. intros [] _.
  - now apply spec_ret.
  - apply get_chapter_page_n_spec.
Qed.

End Download.

Section Discovery.

(** Either the markers are all well formed, or the exceptions of discovery
    are allowed for. *)
Hypothesis marker_ok : markers_well_formed w \/ forall e, discovery_error e -> E e.

Lemma page_count_of_spec html text rest :
  selectpage_texts w html = text :: rest ->
  spec I E (page_count_of w text) (fun _ => True).
Proof.
  intros T. unfold page_count_of.
  destruct marker_ok as [H|H].
  - specialize (H html). rewrite T in H.
    destruct (rev (words text)) as [|word ?]; [contradiction|].
    destruct (py_int w word); [now apply spec_ret|congruence].
  - destruct (rev (words text)) as [|word ?].
    + apply spec_raise, H. unfold discovery_error. tauto.
    + destruct (py_int w word); [now apply spec_ret|].
      apply spec_raise, H. unfold discovery_error. tauto.
Qed.

Lemma assign_spec ch_num r :
  1 <= ch_num ->
  spec I E (on_self (fun o =>
              set_available_chapters (Dict.set (_available_chapters o) ch_num r) o))
    (fun _ => True).
Proof. intros H s Hs. split; [now apply I_assign|exact Logic.I]. Qed.

Lemma chapter_loop_spec retry links : forall ch_num,
  1 <= ch_num ->
  spec I E retry (fun _ => True) ->
  spec I E (chapter_loop w retry links ch_num) (fun _ => True).
Proof.
  induction links as [|href rest IH]; intros ch_num Hch Hr; simpl.
  - now apply spec_ret.
  - eapply spec_bind; [apply get_page_source_spec|].
    intros [st b] Hb. simpl in Hb.
    eapply spec_bind with (Q := fun _ => True); [|intros _ _; apply IH; [lia|exact Hr]].
    destruct st; [|exact Hr].
    eapply spec_bind; [apply markup_spec; auto|]. intros html _.
    destruct (selectpage_texts w html) as [|text rest'] eqn:T.
    + destruct marker_ok as [H|H].
      * specialize (H html). now rewrite T in H.
      * eapply spec_bind; [now apply assign_spec|]. intros _ _.
        apply spec_raise, H. unfold discovery_error. tauto.
    + eapply spec_bind; [eapply page_count_of_spec; exact T|].
      intros n _. now apply assign_spec.
Qed.

Lemma get_chapter_list_n_spec n :
  spec I E (get_chapter_list_n w n) (fun _ => True).
Proof.
  induction n as [|n IH]; rewrite get_chapter_list_n_eq;
    (eapply spec_bind; [apply spec_gets with (Q := fun _ => True); auto|]);
    intros url _; (eapply spec_bind; [apply get_page_source_spec|]);
    intros [[] b] Hb; simpl in Hb; try (now apply spec_ret); try exact IH;
    (eapply spec_bind; [apply markup_spec; auto|]);
    intros html _; (destruct (chapterlist_hrefs w html) as [|href links];
                    [now apply spec_ret|apply chapter_loop_spec; [lia|]]);
    [now apply spec_ret|exact IH].
Qed.

End Discovery.

Section Crawl.

(** The invariant allows any index to be loaded, and the exceptions of the
    file operations, of discovery and of unpickling are allowed for. *)
Hypothesis I_index : forall s d, I s ->
  I (mkState (set_available_chapters d (self s)) (proc s)).
Hypothesis crawl_error_ok :
  forall e, os_error e \/ discovery_error e \/ e = UnpicklingError -> E e.

Lemma load_pickle_spec name : spec I E (os (load_pickle name)) (fun _ => True).
Proof.
  apply os_spec; [apply quiet_load_pickle|]. intros p. unfold load_pickle.
  destruct (negb (nonempty name)); [apply crawl_error_ok; unfold os_error; tauto|].
  destruct (is_dir p _); [apply crawl_error_ok; unfold os_error; tauto|].
  destruct (lookup (files p) _) as [[]|]; simpl; auto;
    apply crawl_error_ok; unfold os_error; tauto.
Qed.

Lemma load_chapter_list_spec : spec I E load_chapter_list (fun _ => True).
Proof.
  unfold load_chapter_list.
  eapply spec_bind; [apply spec_gets with (Q := fun _ => True); auto|]. intros o _.
  eapply spec_bind; [apply path_exists_spec|]. intros [] _; [|now apply spec_ret].
  eapply spec_bind; [apply load_pickle_spec|]. intros d _.
  eapply spec_bind with (Q := fun _ => True); [|intros; now apply spec_ret].
  intros s Hs. split; [now apply I_index|exact Logic.I].
Qed.

Lemma save_chapter_list_spec : spec I E save_chapter_list (fun _ => True).
Proof.
  assert (W : forall name c, spec I E (os (write_file name c)) (fun _ => True)).
  { intros. apply write_file_spec. intros e He. apply crawl_error_ok. tauto. }
  unfold save_chapter_list.
  eapply spec_bind; [apply spec_gets with (Q := fun _ => True); auto|]. intros o _.
  eapply spec_bind; [apply path_exists_spec|]. intros [] _; simpl; [|apply W].
  eapply spec_bind; [apply load_pickle_spec|]. intros d _. apply W.
Qed.

Lemma grab_all_chapters_spec : spec I E (grab_all_chapters w) (fun _ => True).
Proof.
  unfold grab_all_chapters.
  eapply spec_bind; [apply load_chapter_list_spec|]. intros status _.
  eapply spec_bind with (Q := fun _ => True).
  - destruct status; [now apply spec_ret|].
    eapply spec_bind; [|intros _ _; apply save_chapter_list_spec].
    apply get_chapter_list_n_spec. right. intros e He. apply crawl_error_ok. tauto.
  - intros _ _.
    eapply spec_bind; [apply spec_gets with (Q := fun _ => True); auto|]. intros chapters _.
    apply spec_for_each. intros ch _. apply get_chapter_spec.
    intros e He. apply crawl_error_ok. tauto.
Qed.

End Crawl.

End Methods.

End SpecFacts.

(** ** Discovery *)

Module DiscoveryClaims.
Import PyStr Url Validation Fs Crawler Scenario Props MonadFacts DictFacts FsFacts
  FetcherFacts SpecFacts.

Lemma unique_positive_set d ch_num r :
  1 <= ch_num -> unique_positive d -> unique_positive (Dict.set d ch_num r).
Proof.
  intros H [N P]. unfold unique_positive.
  destruct (in_dec Z.eq_dec ch_num (Dict.keys d)) as [Hin|Hin].
  - rewrite keys_set_in by assumption. now split.
  - rewrite keys_set_new by assumption. split.
    + apply NoDup_app; [exact N|repeat constructor; auto|].
      intros k Hk [<-|[]]. contradiction.
    + apply Forall_app. split; [exact P|now repeat constructor].
Qed.

(** Whatever the transport does, discovery keeps the keys of the index
    unique and positive. *)
Lemma get_chapter_list_unique_positive w n s :
  unique_positive (_available_chapters (self s)) ->
  unique_positive (_available_chapters (self (snd (get_chapter_list_n w n s)))).
Proof.
  intros H.
  refine (proj1 (get_chapter_list_n_spec w
                   (fun s => unique_positive (_available_chapters (self s)))
                   (fun _ => True) _ _ _ _ n s H)).
  - intros url k s1 H1.
    destruct (get_page_source_n_frame w url k s1) as (_ & F & _). now rewrite F.
  - intros s1 ch_num r Hc H1. simpl. now apply unique_positive_set.
  - now right.
  - right. intros; exact Logic.I.
Qed.

Lemma set_new d k v : ~ In k (Dict.keys d) -> Dict.set d k v = (d ++ [(k, v)])%list.
Proof.
  induction d as [|[k' v'] d IH]; simpl; [reflexivity|].
  intros H. destruct (Z.eqb_spec k' k); [subst; tauto|].
  f_equal. apply IH. tauto.
Qed.

Lemma numbered_nil w ch_num links : numbered w ch_num links [] = [].
Proof. now destruct links. Qed.

(** With a site that serves every request, a fetch succeeds at once. *)
Lemma get_page_source_served w url n s :
  always_serves w ->
  exists body s1,
    get_page_source_n w url n s = (Ok (true, Some body), s1)
    /\ transport w (opens (proc s)) url = Response 200 body
    /\ _available_chapters (self s1) = _available_chapters (self s).
Proof.
  intros A. destruct (A (opens (proc s)) url) as [body T].
  pose proof (attempt_frame w url s) as (_ & F & _).
  exists body. rewrite get_page_source_n_eq.
  rewrite (attempt_response w _ _ _ _ T) in *. simpl in *.
  destruct n; eexists; (split; [reflexivity|split; [exact T|exact F]]).
Qed.

(** With a site that serves every request, the loop over the links records
    the chapters one after the other, numbered from [ch_num]; it stops
    early only by raising. *)
Lemma chapter_loop_served w retry :
  always_serves w ->
  forall links ch_num s,
    (forall k, In k (Dict.keys (_available_chapters (self s))) -> k < ch_num) ->
    exists counts,
      (List.length counts <= List.length links)%nat
      /\ _available_chapters (self (snd (chapter_loop w retry links ch_num s)))
         = (_available_chapters (self s) ++ numbered w ch_num links counts)%list
      /\ (fst (chapter_loop w retry links ch_num s) = Ok tt ->
          List.length counts = List.length links).
Proof.
  intros A. induction links as [|href rest IH]; intros ch_num s Hk.
  - exists []. simpl. rewrite app_nil_r. auto.
  - destruct (get_page_source_served w (urljoin w _base_address href) 3 s A)
      as (body & s1 & G & _ & F).
    assert (Hnew : ~ In ch_num (Dict.keys (_available_chapters (self s1)))).
    { rewrite F. intros H. specialize (Hk _ H). lia. }
    remember (chapter_loop w retry (href :: rest) ch_num s) as X eqn:EX.
    simpl in EX. unfold get_page_source in EX. rewrite (bind_ok _ _ _ _ _ G) in EX.
    unfold bind, markup, ret, page_count_of, on_self, modify, raise in EX.
    destruct (selectpage_texts w body) as [|text texts].
    + exists [0]. subst X. simpl.
      rewrite set_new, F, numbered_nil by assumption.
      split; [lia|]. split; [reflexivity|discriminate].
    + destruct (rev (words text)) as [|word ws].
      * exists []. subst X. simpl. rewrite F, app_nil_r.
        split; [lia|]. split; [reflexivity|discriminate].
      * destruct (py_int w word) as [n|].
        -- simpl in EX.
           match type of EX with
           | _ = chapter_loop _ _ _ _ ?st => set (s2 := st) in *
           end.
           destruct (IH (ch_num + 1) s2) as (counts & L & D & R).
           { simpl. rewrite set_new by assumption. intros k Hin.
             unfold Dict.keys in Hin. rewrite map_app in Hin.
             apply in_app_or in Hin as [Hin|[<-|[]]]; [|simpl; lia].
             rewrite F in Hin. specialize (Hk _ Hin). lia. }
           exists (n :: counts). subst X. rewrite D. simpl.
           rewrite set_new, F, <- app_assoc by assumption.
           split; [lia|]. split; [reflexivity|]. intros H. f_equal. now apply R.
        -- exists []. subst X. simpl. rewrite F, app_nil_r.
           split; [lia|]. split; [reflexivity|discriminate].
Qed.

Lemma keys_numbered w links : forall counts ch_num,
  (List.length counts <= List.length links)%nat ->
  Dict.keys (numbered w ch_num links counts)
  = map (fun i => ch_num + Z.of_nat i) (seq 0 (List.length counts)).
Proof.
  induction links as [|href links IH]; intros [|n counts] ch_num L; simpl in *;
    try reflexivity; try lia.
  f_equal; [lia|]. rewrite IH by lia. rewrite <- seq_shift, map_map.
  apply map_ext. intros i. lia.
Qed.

Lemma keys_numbered_from_one w links counts :
  (List.length counts <= List.length links)%nat ->
  Dict.keys (numbered w 1 links counts) = one_to (List.length counts).
Proof.
  intros L. rewrite keys_numbered by assumption. unfold one_to.
  rewrite <- seq_shift, map_map. apply map_ext. intros i. lia.
Qed.

(** The operations that follow discovery in a crawl, saving the index and
    downloading chapters, do not touch the index. *)
Lemma get_chapter_keeps_index w chapter_num s :
  _available_chapters (self (snd (get_chapter w chapter_num s)))
  = _available_chapters (self s).
Proof.
  refine (proj1 (get_chapter_spec w
                   (fun s' => _available_chapters (self s')
                              = _available_chapters (self s))
                   (fun _ => True) _ _ _ _ chapter_num s eq_refl)).
  - intros url k s1 H1.
    destruct (get_page_source_n_frame w url k s1) as (_ & F & _). now rewrite F.
  - intros s1 p _ _ _ H1. exact H1.
  - now right.
  - intros; exact Logic.I.
Qed.

Lemma save_chapter_list_keeps_index s :
  _available_chapters (self (snd (save_chapter_list s)))
  = _available_chapters (self s).
Proof.
  refine (proj1 (save_chapter_list_spec
                   (fun s' => _available_chapters (self s')
                              = _available_chapters (self s))
                   (fun _ => True) _ _ _ s eq_refl)).
  - intros s1 p _ _ _ H1. exact H1.
  - now right.
  - intros; exact Logic.I.
Qed.



(** On the healthy site discovery finds both chapters. *)
Example discovery_run :
  _available_chapters
    (self (snd (get_chapter_list (site_world healthy_site) 3
                  (mkState (reader "." []) process0))))
  = [(1, (chapter1_url, 2)); (2, (chapter2_url, 2))].
Proof. reflexivity. Qed.


End DiscoveryClaims.

(** ** The whole crawl *)

Module CrawlFacts.
Import PyStr Url Validation Fs Crawler Scenario Props MonadFacts DictFacts FsFacts
  FetcherFacts DownloadClaims SpecFacts.

Lemma quiet_gets {A} (f : process -> A) : quiet (gets f).
Proof. intros p. now cbv. Qed.

Lemma quiet_make_dir_tree dir_path : quiet (make_dir_tree dir_path).
Proof.
  unfold make_dir_tree. apply quiet_for_each. intros folder.
  apply quiet_bind; [apply quiet_path_isdir|]. intros d.
  apply quiet_bind; [|intros _; apply quiet_chdir].
  destruct (negb d); [apply quiet_mkdir|apply quiet_ret].
Qed.

Lemma quiet_init manga_url target_dir wait_time time_out retries retry_after :
  quiet (__init__ manga_url target_dir wait_time time_out retries retry_after).
Proof.
  unfold __init__.
  apply quiet_bind; [apply quiet_make_dir_tree|]. intros _.
  apply quiet_bind; [apply quiet_chdir|]. intros _.
  destruct (negb (validate_url (strip "/" manga_url))); [apply quiet_raise|].
  apply quiet_bind; [apply quiet_gets|]. intros c.
  apply quiet_bind; [apply quiet_gets|]. intros t. apply quiet_ret.
Qed.

(** An object built where no request has been made yet starts with a paced
    trace, the empty one. *)
Lemma constructed_paced manga_url target_dir wait_time time_out retries retry_after p o p' :
  __init__ manga_url target_dir wait_time time_out retries retry_after p = (Ok o, p') ->
  trace p = [] ->
  pacing_invariant (mkState o p').
Proof.
  intros H T.
  destruct (quiet_init manga_url target_dir wait_time time_out retries retry_after p)
    as (_ & _ & Ht).
  rewrite H in Ht. simpl in Ht. unfold pacing_invariant. simpl. rewrite Ht, T.
  repeat split; simpl; try discriminate; contradiction.
Qed.

Section Paced.

Variable w : world.

Lemma paced_fetch url n s :
  pacing_invariant s -> pacing_invariant (snd (get_page_source_n w url n s)).
Proof. apply get_page_source_n_paced. Qed.

Lemma paced_proc s p :
  clock p = clock (proc s) -> opens p = opens (proc s) -> trace p = trace (proc s) ->
  pacing_invariant s -> pacing_invariant (mkState (self s) p).
Proof.
  unfold pacing_invariant. simpl. intros -> _ ->. auto.
Qed.

Lemma paced_index s d :
  pacing_invariant s ->
  pacing_invariant (mkState (set_available_chapters d (self s)) (proc s)).
Proof. unfold pacing_invariant. simpl. auto. Qed.

Lemma paced_assign s ch_num r :
  1 <= ch_num -> pacing_invariant s ->
  pacing_invariant
    (mkState (set_available_chapters
                (Dict.set (_available_chapters (self s)) ch_num r) (self s)) (proc s)).
Proof. intros _. apply paced_index. Qed.

(** Every method keeps the trace paced: all requests go through
    [get_page_source]. *)
Lemma get_chapter_list_paced retry_count s :
  pacing_invariant s -> pacing_invariant (snd (get_chapter_list w retry_count s)).
Proof.
  intros H.
  refine (proj1 (get_chapter_list_n_spec w pacing_invariant (fun _ => True)
                   paced_fetch paced_assign _ _ (Z.to_nat retry_count) s H)).
  - now right.
  - right. intros; exact Logic.I.
Qed.

Lemma get_chapter_page_paced chapter_num page_num retry_count s :
  pacing_invariant s ->
  pacing_invariant (snd (get_chapter_page w chapter_num page_num retry_count s)).
Proof.
  intros H.
  refine (proj1 (get_chapter_page_n_spec w pacing_invariant (fun _ => True)
                   paced_fetch paced_proc _ _
                   chapter_num page_num (Z.to_nat retry_count) s H)).
  - now right.
  - intros; exact Logic.I.
Qed.

Lemma get_chapter_paced chapter_num s :
  pacing_invariant s -> pacing_invariant (snd (get_chapter w chapter_num s)).
Proof.
  intros H.
  refine (proj1 (get_chapter_spec w pacing_invariant (fun _ => True)
                   paced_fetch paced_proc _ _ chapter_num s H)).
  - now right.
  - intros; exact Logic.I.
Qed.

Lemma grab_all_chapters_paced s :
  pacing_invariant s -> pacing_invariant (snd (grab_all_chapters w s)).
Proof.
  intros H.
  refine (proj1 (grab_all_chapters_spec w pacing_invariant (fun _ => True)
                   paced_fetch paced_proc paced_assign _ paced_index _ s H)).
  - now right.
  - intros; exact Logic.I.
Qed.

End Paced.

Section Counting.

Variable w : world.

(** A fetch calls the opener at least once. *)
Lemma get_page_source_n_opens url n : forall s,
  (S (opens (proc s)) <= opens (proc (snd (get_page_source_n w url n s))))%nat.
Proof.
  induction n as [|n IH]; intros s; rewrite get_page_source_n_eq;
    pose proof (attempt_opens w url s) as O;
    destruct (attempt w url s) as [[[[] b]|e] s1]; simpl in *; try lia.
  destruct (_retry_after (self s1) <? 0); simpl; [lia|].
  specialize (IH (slept (_retry_after (self s1)) s1)). simpl in IH. lia.
Qed.

(** No method lowers the count of requests. *)
Lemma count_fetch k url n s :
  (k <= opens (proc s))%nat -> (k <= opens (proc (snd (get_page_source_n w url n s))))%nat.
Proof. pose proof (get_page_source_n_opens url n s). lia. Qed.

Lemma count_proc k s p :
  clock p = clock (proc s) -> opens p = opens (proc s) -> trace p = trace (proc s) ->
  (k <= opens (proc s))%nat -> (k <= opens (proc (mkState (self s) p)))%nat.
Proof. simpl. lia. Qed.

(** Whatever the page number, a page download of a chapter that is in the
    index with a page count that is not negative makes a request: the
    boundary test rejects nothing. *)
Lemma get_chapter_page_requests_any_page chapter_num page_num n s url count :
  Dict.get (_available_chapters (self s)) chapter_num = Some (url, count) ->
  nonempty url = true ->
  0 <= count ->
  (opens (proc s) < opens (proc (snd (get_chapter_page_n w chapter_num page_num n s))))%nat.
Proof.
  intros G U C.
  set (I := fun s' : state => (S (opens (proc s)) <= opens (proc s'))%nat).
  assert (If : forall url n s', I s' -> I (snd (get_page_source_n w url n s')))
    by (intros; now apply count_fetch).
  assert (Ip : forall s' p,
            clock p = clock (proc s') -> opens p = opens (proc s') ->
            trace p = trace (proc s') -> I s' -> I (mkState (self s') p))
    by (intros s' p; apply count_proc).
  assert (Sl : (forall s', I s' -> 0 <= _retry_after (self s'))
               \/ (fun _ : exn => True) ValueError) by now right.
  assert (K : forall m (k : bool * option string -> M state unit),
            (forall a, spec I (fun _ => True) (k a) (fun _ => True)) ->
            I (snd (bind (get_page_source w m 3) k s))).
  { intros m k Hk. unfold bind, get_page_source.
    pose proof (get_page_source_n_opens m (Z.to_nat 3) s) as O.
    destruct (get_page_source_n w m (Z.to_nat 3) s) as [[a|e] s1]; simpl in O.
    - now apply Hk.
    - exact O. }
  enough (I (snd (get_chapter_page_n w chapter_num page_num n s))) by (unfold I in *; lia).
  destruct n as [|n]; simpl; unfold bind at 1, gets; cbn [fst snd];
    unfold chapter_entry; rewrite G; cbn [truthy]; rewrite U;
    rewrite (boundary_test_never_holds page_num count C); cbn [negb];
    apply K; intros [[] b]; try (now apply spec_ret);
    try (apply get_chapter_page_n_spec; auto);
    (eapply spec_bind with (Q := fun _ => True);
     [destruct b; [now apply spec_ret|now apply spec_raise]|]);
    intros html _; (destruct (img_srcs w html); [now apply spec_ret|]);
    apply save_image_spec; auto.
Qed.

End Counting.

End CrawlFacts.

(** ** What propagates *)

Module PropagationClaims.
Import PyStr Url Validation Fs Crawler Scenario Props MonadFacts DictFacts FsFacts
  FetcherFacts SpecFacts CrawlFacts.

(** The invariant under which nothing but the exceptions named below
    propagates: the retry delay is not negative. *)
Lemma delay_fetch s s' :
  fetch_frame s s' -> 0 <= _retry_after (self s) -> 0 <= _retry_after (self s').
Proof. intros ((_&_&_&_&_&_&_&F)&_) H. now rewrite F. Qed.

(** A chapter page without page-count marker: the chapter is recorded with
    the page count 0, and the loop raises. *)
Lemma chapter_loop_unmarked w retry href rest ch_num s html s1 :
  get_page_source w (urljoin w _base_address href) 3 s = (Ok (true, Some html), s1) ->
  selectpage_texts w html = [] ->
  exists s2,
    chapter_loop w retry (href :: rest) ch_num s = (Raise TypeError, s2)
    /\ Dict.get (_available_chapters (self s2)) ch_num
       = Some (urljoin w _base_address href, 0).
Proof.
  intros G T. simpl. rewrite (bind_ok _ _ _ _ _ G).
  unfold bind, markup, ret, on_self, modify, raise. rewrite T.
  eexists. split; [reflexivity|]. simpl. apply get_set_same.
Qed.

(** The constructor raises the validation failure, or the error of a file
    operation on the target directory. *)
Lemma init_raises manga_url target_dir wait_time time_out retries retry_after p e :
  fst (__init__ manga_url target_dir wait_time time_out retries retry_after p) = Raise e ->
  e = ValueError \/ os_error e.
Proof.
  set (E := fun e => e = ValueError \/ os_error e).
  assert (Hc : forall name, spec (fun _ : process => True) E (chdir name) (fun _ => True)).
  { intros name q _. split; [exact Logic.I|].
    destruct (fst (chdir name q)) eqn:C; [exact Logic.I|].
    right. now apply (chdir_raises name q). }
  assert (Hm : forall name, spec (fun _ : process => True) E (mkdir name) (fun _ => True)).
  { intros name q _. split; [exact Logic.I|].
    destruct (fst (mkdir name q)) eqn:C; [exact Logic.I|].
    right. now apply (mkdir_raises name q). }
  assert (S : spec (fun _ : process => True) E
                (__init__ manga_url target_dir wait_time time_out retries retry_after)
                (fun _ => True)).
  { unfold __init__.
    eapply spec_bind with (Q := fun _ => True).
    { unfold make_dir_tree. apply spec_for_each. intros folder _.
      eapply spec_bind with (Q := fun _ => True); [now apply spec_gets|]. intros d _.
      eapply spec_bind with (Q := fun _ => True); [|intros _ _; apply Hc].
      destruct (negb d); [apply Hm|now apply spec_ret]. }
    intros _ _. eapply spec_bind; [apply Hc|]. intros _ _.
    destruct (negb (validate_url (strip "/" manga_url))).
    - apply spec_raise. now left.
    - eapply spec_bind with (Q := fun _ => True); [now apply spec_gets|]. intros c _.
      eapply spec_bind with (Q := fun _ => True); [now apply spec_gets|]. intros t _.
      now apply spec_ret. }
  intros H. destruct (S p Logic.I) as [_ P]. now rewrite H in P.
Qed.




End PropagationClaims.
